(** * Sales dashboard core: a shallow embedding of [src/core/*.py]

    The analytic core of the repository is a handful of pandas one-liners
    over one tabular dataset.  This development embeds them as Rocq
    functions and proves the properties the specification states about
    them.

    Conventions of the embedding.

    - A float64 cell is a [num]: an exact rational ([Qc], so that equal
      numbers are equal terms) or one of the three IEEE special values.
      Rounding is abstracted away (the specification itself speaks of
      equalities "within floating-point tolerance"); what division by
      zero and the arithmetic of infinities produce is kept, because the
      code relies on it ([dropna], comparisons with NaN).  Signed zeros are
      not distinguished: a zero divisor counts as [+0].
    - A DataFrame is a list of records, one per row, in row order.
    - A Python [dict] is a [gmap string _], a Python [set] a [gset _].
    - Exceptions are the [Raise] results of the [result] monad.
    - The frame properties (which DataFrame object a function writes to)
      live in the last part, on an explicit store of column-oriented
      frames. *)

From Stdlib Require Import QArith Qcanon Qcabs Qround Lqa.
From stdpp Require Import gmap strings list sorting pretty.

Local Open Scope Z_scope.

(** ** Numbers *)

Inductive num : Type :=
  | Fin (q : Qc)
  | PInf
  | NInf
  | NaN.

Global Instance num_eq_dec : EqDecision num.
Proof. solve_decision. Defined.

Global Instance num_inhabited : Inhabited num := populate NaN.

(** Integer and decimal literals of the source. *)
Definition qz (z : Z) : Qc := Q2Qc (inject_Z z).
Definition nz (z : Z) : num := Fin (qz z).

(** Sign of a number as a [comparison] with zero: [Lt] negative, [Eq] zero,
    [Gt] positive.  ([NaN] has no sign; it is filtered before [sgn] is
    consulted.) *)
Definition sgn (x : num) : comparison :=
  match x with
  | Fin q => (q ?= 0)%Qc
  | PInf => Gt
  | NInf => Lt
  | NaN => Eq
  end.

Definition sgn_mul (s t : comparison) : comparison :=
  match s, t with
  | Eq, _ | _, Eq => Eq
  | Lt, Lt | Gt, Gt => Gt
  | _, _ => Lt
  end.

(** The infinity of a given sign; a zero sign is the invalid operation. *)
Definition inf_of (s : comparison) : num :=
  match s with
  | Gt => PInf
  | Lt => NInf
  | Eq => NaN
  end.

Definition xneg (x : num) : num :=
  match x with
  | Fin q => Fin (- q)%Qc
  | PInf => NInf
  | NInf => PInf
  | NaN => NaN
  end.

Definition xadd (x y : num) : num :=
  match x, y with
  | NaN, _ | _, NaN => NaN
  | Fin a, Fin b => Fin (a + b)%Qc
  | PInf, NInf | NInf, PInf => NaN
  | PInf, _ | _, PInf => PInf
  | NInf, _ | _, NInf => NInf
  end.

Definition xsub (x y : num) : num := xadd x (xneg y).

Definition xmul (x y : num) : num :=
  match x, y with
  | NaN, _ | _, NaN => NaN
  | Fin a, Fin b => Fin (a * b)%Qc
  | _, _ => inf_of (sgn_mul (sgn x) (sgn y))
  end.

(** IEEE division: [x / 0] is an infinity of the sign of [x], [0 / 0] and
    [inf / inf] are NaN, [x / inf] is zero. *)
Definition xdiv (x y : num) : num :=
  match x, y with
  | NaN, _ | _, NaN => NaN
  | Fin a, Fin b =>
      if decide (b = 0%Qc) then inf_of (sgn x) else Fin (a / b)%Qc
  | Fin _, _ => Fin 0%Qc
  | _, Fin b =>
      if decide (b = 0%Qc) then x else inf_of (sgn_mul (sgn x) (sgn y))
  | _, _ => NaN
  end.

(** Comparisons; every comparison with NaN is false. *)
Definition xltb (x y : num) : bool :=
  match x, y with
  | NaN, _ | _, NaN => false
  | Fin a, Fin b => bool_decide (a < b)%Qc
  | _, NInf => false
  | NInf, _ => true
  | PInf, _ => false
  | _, PInf => true
  end.

Definition xgtb (x y : num) : bool := xltb y x.

Definition xleb (x y : num) : bool :=
  match x, y with
  | NaN, _ | _, NaN => false
  | Fin a, Fin b => bool_decide (a <= b)%Qc
  | NInf, _ => true
  | _, PInf => true
  | _, _ => false
  end.

Definition is_nan (x : num) : bool :=
  match x with NaN => true | _ => false end.

(** ** Exceptions *)

Inductive pyerr : Type :=
  | ZeroDivisionError
  | TypeError
  | KeyError (key : string).

Global Instance pyerr_eq_dec : EqDecision pyerr.
Proof. solve_decision. Defined.

Inductive result (A : Type) : Type :=
  | Ok (a : A)
  | Raise (e : pyerr).
Arguments Ok {A} a.
Arguments Raise {A} e.

Global Instance result_eq_dec `{EqDecision A} : EqDecision (result A).
Proof. solve_decision. Defined.

Global Instance result_ret : MRet result := λ A a, Ok a.
Global Instance result_bind : MBind result := λ A B f m,
  match m with
  | Ok a => f a
  | Raise e => Raise e
  end.
Global Instance result_fmap : FMap result := λ A B f m,
  match m with
  | Ok a => Ok (f a)
  | Raise e => Raise e
  end.

(** ** Scenario simulator ([src/core/scenario.py]) *)

(** Values a scenario dict holds: numbers (the three percentages, or any
    other numeric annotation) and strings (labels). *)
Inductive pyval : Type :=
  | VNum (x : num)
  | VStr (s : string).

Global Instance pyval_eq_dec : EqDecision pyval.
Proof. solve_decision. Defined.

(** The dynamic type of the [baseline_revenue] argument.  The signature
    annotates a Python [float]; the dashboard passes the [numpy.float64]
    that [baseline_metrics] returns.  The two differ in one place: true
    division by zero raises for Python scalars and yields inf/NaN for numpy
    scalars. *)
Inductive scalar_kind : Type :=
  | PyFloat
  | NpFloat64.

Definition truediv (k : scalar_kind) (x y : num) : result num :=
  match k with
  | PyFloat =>
      if decide (y = Fin 0%Qc) then Raise ZeroDivisionError else Ok (xdiv x y)
  | NpFloat64 => Ok (xdiv x y)
  end.

(** The dict literal that [simulate_scenario] returns. *)
Definition scenario_dict (simulated_revenue delta delta_pct : num)
    : gmap string pyval :=
  <["simulated_revenue" := VNum simulated_revenue]>
    (<["absolute_change" := VNum delta]>
      (<["percentage_change" := VNum delta_pct]> ∅)).

Definition simulate_scenario (k : scalar_kind) (baseline_revenue : num)
    (price_change_pct volume_change_pct discount_pct : num)
    : result (gmap string pyval) :=
  let price_factor := xadd (nz 1) (xdiv price_change_pct (nz 100)) in
  let volume_factor := xadd (nz 1) (xdiv volume_change_pct (nz 100)) in
  let discount_factor := xsub (nz 1) (xdiv discount_pct (nz 100)) in
  let simulated_revenue :=
    xmul (xmul (xmul baseline_revenue price_factor) volume_factor)
         discount_factor in
  let delta := xsub simulated_revenue baseline_revenue in
  q ← truediv k delta baseline_revenue;
  let delta_pct := xmul q (nz 100) in
  mret (scenario_dict simulated_revenue delta delta_pct).

(** [s.get(key, 0)], used as an operand of [/]: a string operand is a
    [TypeError]. *)
Definition get_pct (s : gmap string pyval) (key : string) : result num :=
  match s !! key with
  | None => Ok (nz 0)
  | Some (VNum x) => Ok x
  | Some (VStr _) => Raise TypeError
  end.

(** The body of the [for] loop: compute the outcome, then
    [outcome.update(s)].  [s ∪ outcome] is left-biased: on a common key the
    value of [s] stays, which is what [update] does. *)
Definition batch_step (k : scalar_kind) (baseline_revenue : num)
    (s : gmap string pyval) : result (gmap string pyval) :=
  p ← get_pct s "price_change";
  v ← get_pct s "volume_change";
  d ← get_pct s "discount";
  outcome ← simulate_scenario k baseline_revenue p v d;
  mret (s ∪ outcome).

Fixpoint batch_loop (k : scalar_kind) (baseline_revenue : num)
    (scenarios results : list (gmap string pyval))
    : result (list (gmap string pyval)) :=
  match scenarios with
  | [] => Ok results
  | s :: rest =>
      outcome ← batch_step k baseline_revenue s;
      batch_loop k baseline_revenue rest (results ++ [outcome])
  end.

(** [pd.DataFrame(records)]: the columns are the union of the records'
    keys; a record without a column gets NaN there. *)
Definition DataFrame_of_records (records : list (gmap string pyval))
    : list (gmap string pyval) :=
  let columns : gset string := ⋃ (dom <$> records) in
  (λ r, r ∪ gset_to_gmap (VNum NaN) columns) <$> records.

Definition batch_simulation (k : scalar_kind) (baseline_revenue : num)
    (scenarios : list (gmap string pyval))
    : result (list (gmap string pyval)) :=
  DataFrame_of_records <$> batch_loop k baseline_revenue scenarios [].

Definition result_keys : list string :=
  ["simulated_revenue"; "absolute_change"; "percentage_change"].

(** What [s.get(key, 0)] contributes when it is a number. *)
Definition pct_of (s : gmap string pyval) (key : string) : num :=
  match s !! key with
  | Some (VNum x) => x
  | _ => nz 0
  end.

(** The three percentages of a scenario, where present, are numbers. *)
Definition numeric_params (s : gmap string pyval) : Prop :=
  ∀ key t, key ∈ ["price_change"; "volume_change"; "discount"] →
    s !! key ≠ Some (VStr t).

(** ** Data model *)

(** A [pd.Timestamp] at day granularity (the time of day plays no part). *)
Module Ts.
Record t : Type := Make { year : Z; month : Z; day : Z }.
Global Instance eq_dec : EqDecision t.
Proof. solve_decision. Defined.
End Ts.

(** One line item of the sales dataset.  [order_id] may be a missing cell
    ([None]), which [nunique] does not count. *)
Module Sales.
Record row : Type := Make {
  order_id : option Z;
  order_date : Ts.t;
  product_name : string;
  category : string;
  region : string;
  quantity : Z;
  unit_price : Qc;
  revenue : Qc
}.
Global Instance eq_dec : EqDecision row.
Proof. solve_decision. Defined.
End Sales.

(** A row of [monthly_kpis]. *)
Module Monthly.
Record row : Type := Make {
  order_month : string;
  revenue : Qc;
  orders : Z;
  aov : num
}.
Global Instance eq_dec : EqDecision row.
Proof. solve_decision. Defined.
End Monthly.

(** A row of [revenue_decomposition]. *)
Module Decomp.
Record row : Type := Make {
  order_month : string;
  revenue : num;
  revenue_change : num;
  orders_effect : num;
  aov_effect : num
}.
Global Instance eq_dec : EqDecision row.
Proof. solve_decision. Defined.
End Decomp.

(** ** pandas primitives *)

(** [Series.sum()] of a column without missing cells. *)
Definition qsum (xs : list Qc) : Qc := foldr Qcplus 0%Qc xs.

(** [Series.nunique()]: distinct values, missing cells not counted. *)
Definition nunique `{EqDecision A} (xs : list (option A)) : Z :=
  Z.of_nat (length (remove_dups (omap id xs))).

(** [df.groupby(key)]: one group per distinct key, groups in ascending key
    order, the rows of a group in their original order. *)
Section groupby.
Context {R K : Type} `{EqDecision K}.
Context (le : relation K) `{!∀ x y, Decision (le x y)}.

Definition group_keys (key : R → K) (rows : list R) : list K :=
  merge_sort le (remove_dups (key <$> rows)).

Definition groupby (key : R → K) (rows : list R) : list (K * list R) :=
  (λ k, (k, filter (λ r, key r = k) rows)) <$> group_keys key rows.
End groupby.

(** [Series.shift(1)] applied to whole rows: every row is paired with its
    predecessor, the first row with a missing one. *)
Definition shift {A} (xs : list A) : list (option A) :=
  take (length xs) (None :: (Some <$> xs)).

(** ** KPI engine ([src/core/kpi.py]) *)

Definition pad2 (z : Z) : string :=
  if decide (z < 10) then "0" +:+ pretty z else pretty z.

(** [dt.to_period("M").astype(str)]: the label ["YYYY-MM"]. *)
Definition month_label (d : Ts.t) : string :=
  pretty (Ts.year d) +:+ "-" +:+ pad2 (Ts.month d).

Definition monthly_kpis (df : list Sales.row) : list Monthly.row :=
  (λ g : string * list Sales.row,
     let revenue := qsum (Sales.revenue <$> g.2) in
     let orders := nunique (Sales.order_id <$> g.2) in
     {| Monthly.order_month := g.1;
        Monthly.revenue := revenue;
        Monthly.orders := orders;
        Monthly.aov := xdiv (Fin revenue) (nz orders) |})
  <$> groupby String.le (month_label ∘ Sales.order_date) df.

(** The working frame of [revenue_decomposition]: the monthly columns, the
    three shifted columns and the three computed ones. *)
Module Work.
Record row : Type := Make {
  order_month : string;
  revenue : num;
  orders : num;
  aov : num;
  prev_revenue : num;
  prev_orders : num;
  prev_aov : num;
  revenue_change : num;
  orders_effect : num;
  aov_effect : num
}.
End Work.

(** One row of the working frame, from a month and its predecessor.  A
    missing predecessor leaves NaN in the shifted columns. *)
Definition work_row (prev : option Monthly.row) (cur : Monthly.row)
    : Work.row :=
  let revenue := Fin (Monthly.revenue cur) in
  let orders := nz (Monthly.orders cur) in
  let aov := Monthly.aov cur in
  let prev_revenue := from_option (Fin ∘ Monthly.revenue) NaN prev in
  let prev_orders := from_option (nz ∘ Monthly.orders) NaN prev in
  let prev_aov := from_option Monthly.aov NaN prev in
  {| Work.order_month := Monthly.order_month cur;
     Work.revenue := revenue;
     Work.orders := orders;
     Work.aov := aov;
     Work.prev_revenue := prev_revenue;
     Work.prev_orders := prev_orders;
     Work.prev_aov := prev_aov;
     Work.revenue_change := xsub revenue prev_revenue;
     Work.orders_effect := xmul (xsub orders prev_orders) prev_aov;
     Work.aov_effect := xmul (xsub aov prev_aov) orders |}.

(** The rows [dropna()] keeps: no NaN in any column.  (Infinities are not
    missing values.) *)
Definition notna (w : Work.row) : bool :=
  forallb (λ x, negb (is_nan x))
    [ Work.revenue w; Work.orders w; Work.aov w;
      Work.prev_revenue w; Work.prev_orders w; Work.prev_aov w;
      Work.revenue_change w; Work.orders_effect w; Work.aov_effect w ].

(** The working frame, before [dropna]. *)
Definition work_rows (monthly_df : list Monthly.row) : list Work.row :=
  zip_with work_row (shift monthly_df) monthly_df.

Definition revenue_decomposition (monthly_df : list Monthly.row)
    : list Decomp.row :=
  let df := work_rows monthly_df in
  let df := filter notna df in
  (λ w, {| Decomp.order_month := Work.order_month w;
           Decomp.revenue := Work.revenue w;
           Decomp.revenue_change := Work.revenue_change w;
           Decomp.orders_effect := Work.orders_effect w;
           Decomp.aov_effect := Work.aov_effect w |}) <$> df.

(** [row["orders_effect"] > 0] and [row["aov_effect"] > 0] select one
    message each; the two are joined with [" & "]. *)
Definition interpret_revenue_change (row : Decomp.row) : string :=
  let messages := [] in
  let messages :=
    if xgtb (Decomp.orders_effect row) (nz 0)
    then messages ++ ["Increase driven by higher order volume"]
    else messages ++ ["Decrease driven by lower order volume"] in
  let messages :=
    if xgtb (Decomp.aov_effect row) (nz 0)
    then messages ++ ["Higher average order value helped"]
    else messages ++ ["Lower average order value impacted revenue"] in
  String.concat " & " messages.

(** A monthly row whose [aov] column is [revenue / orders], as
    [monthly_kpis] computes it. *)
Definition kpi_consistent (m : Monthly.row) : Prop :=
  Monthly.aov m = xdiv (Fin (Monthly.revenue m)) (nz (Monthly.orders m)).

Global Instance kpi_consistent_dec (m : Monthly.row) :
  Decision (kpi_consistent m).
Proof. unfold kpi_consistent. apply _. Defined.

(** The two fixed phrases of each component, by the sign test the code
    makes ([> 0] or not). *)
Definition orders_phrase (positive : bool) : string :=
  if positive then "Increase driven by higher order volume"
  else "Decrease driven by lower order volume".

Definition aov_phrase (positive : bool) : string :=
  if positive then "Higher average order value helped"
  else "Lower average order value impacted revenue".

(** ** Pareto engine ([src/core/pareto.py]) *)

Module Pareto.
Record row : Type := Make {
  label : string;
  revenue : Qc;
  revenue_share : num;
  cumulative_share : num;
  pareto_flag : bool
}.
Global Instance eq_dec : EqDecision row.
Proof. solve_decision. Defined.
End Pareto.

(** [Series.cumsum()]: the running sum, started at the first cell.  A NaN
    cell stays NaN and is skipped by the running sum ([skipna=True]). *)
Fixpoint cumsum_from (acc : num) (xs : list num) : list num :=
  match xs with
  | [] => []
  | x :: rest =>
      if is_nan x then NaN :: cumsum_from acc rest
      else let acc := xadd acc x in acc :: cumsum_from acc rest
  end.

Definition cumsum (xs : list num) : list num := cumsum_from (Fin 0%Qc) xs.

(** [sort_values("revenue", ascending=False)] on the (label, revenue)
    frame.  pandas leaves the order of equal revenues unspecified; here
    they come out as [merge_sort] leaves them. *)
Definition revenue_ge (a b : string * Qc) : Prop := (b.2 ≤ a.2)%Qc.

Global Instance revenue_ge_dec (a b : string * Qc) : Decision (revenue_ge a b).
Proof. unfold revenue_ge. apply _. Defined.

Definition sort_revenue_desc (rev : list (string * Qc)) : list (string * Qc) :=
  merge_sort revenue_ge rev.

(** [df.groupby(key).agg(revenue=("revenue", "sum"))
      .sort_values("revenue", ascending=False).reset_index()]. *)
Definition pareto_groups (key : Sales.row → string) (df : list Sales.row)
    : list (string * Qc) :=
  sort_revenue_desc
    ((λ g : string * list Sales.row, (g.1, qsum (Sales.revenue <$> g.2)))
     <$> groupby String.le key df).

(** The common body of [pareto_products] and [pareto_categories]; [key] is
    the grouping column. *)
Definition pareto_by (key : Sales.row → string) (df : list Sales.row)
    (threshold : num) : list Pareto.row :=
  let rev := pareto_groups key df in
  let total_revenue := qsum (snd <$> rev) in
  let revenue_share :=
    (λ g : string * Qc, xdiv (Fin g.2) (Fin total_revenue)) <$> rev in
  let cumulative_share := cumsum revenue_share in
  zip_with (λ (g : string * Qc) (sc : num * num),
      {| Pareto.label := g.1;
         Pareto.revenue := g.2;
         Pareto.revenue_share := sc.1;
         Pareto.cumulative_share := sc.2;
         Pareto.pareto_flag := xleb sc.2 threshold |})
    rev (zip revenue_share cumulative_share).

Definition pareto_products (df : list Sales.row) (threshold : num)
    : list Pareto.row :=
  pareto_by Sales.product_name df threshold.

Definition pareto_categories (df : list Sales.row) (threshold : num)
    : list Pareto.row :=
  pareto_by Sales.category df threshold.

(** ** Validator ([src/core/validation.py]) *)

Definition REQUIRED_COLUMNS : list string :=
  [ "order_id"; "order_date"; "product_name"; "category"; "region";
    "quantity"; "unit_price"; "revenue" ].

(** [list(set(REQUIRED_COLUMNS) - set(df.columns))]; the order of the
    resulting list is whatever the set enumerates. *)
Definition validate_schema (columns : list string) : list string :=
  let missing_cols : gset string :=
    list_to_set REQUIRED_COLUMNS ∖ list_to_set columns in
  elements missing_cols.

Module Issues.
Record t : Type := Make {
  invalid_quantity : list Sales.row;
  invalid_price : list Sales.row;
  revenue_mismatch : list Sales.row
}.
End Issues.

(** The three row masks of [validate_business_rules]. *)
Definition quantity_invalid (r : Sales.row) : bool :=
  bool_decide (Sales.quantity r ≤ 0).

Definition price_invalid (r : Sales.row) : bool :=
  bool_decide (Sales.unit_price r ≤ 0)%Qc.

Definition mismatch (r : Sales.row) : bool :=
  let calculated_revenue := (qz (Sales.quantity r) * Sales.unit_price r)%Qc in
  bool_decide (1 < Qcabs (Sales.revenue r - calculated_revenue))%Qc.

Definition validate_business_rules (df : list Sales.row) : Issues.t :=
  {| Issues.invalid_quantity := filter (λ r, quantity_invalid r) df;
     Issues.invalid_price := filter (λ r, price_invalid r) df;
     Issues.revenue_mismatch := filter (λ r, mismatch r) df |}.

(** Linear interpolation in the sorted values [v] at the virtual index
    [h]: [v[lo] + (v[hi] - v[lo]) (h - lo)] with [lo = floor h] and
    [hi = min (lo + 1) (n - 1)]. *)
Definition interpolate (v : list Qc) (h : Qc) : Qc :=
  let n := Z.of_nat (length v) in
  let lo := Qfloor h in
  let hi := Z.min (lo + 1) (n - 1) in
  let a := nth (Z.to_nat lo) v 0%Qc in
  let b := nth (Z.to_nat hi) v 0%Qc in
  (a + (b - a) * (h - qz lo))%Qc.

(** [Series.quantile(q)] with the default linear interpolation, at the
    virtual index [(n - 1) q] of the sorted column.  The quantile of an
    empty column is NaN. *)
Definition quantile (xs : list Qc) (q : Qc) : num :=
  let v := merge_sort Qcle xs in
  match v with
  | [] => NaN
  | _ => Fin (interpolate v (qz (Z.of_nat (length v) - 1) * q)%Qc)
  end.

(** The two bounds of the IQR fence. *)
Definition fence (revenue : list Qc) : num * num :=
  let q1 := quantile revenue (Q2Qc 0.25) in
  let q3 := quantile revenue (Q2Qc 0.75) in
  let iqr := xsub q3 q1 in
  let lower := xsub q1 (xmul (Fin (Q2Qc 1.5)) iqr) in
  let upper := xadd q3 (xmul (Fin (Q2Qc 1.5)) iqr) in
  (lower, upper).

(** The row mask [(revenue < lower) | (revenue > upper)]. *)
Definition is_outlier (lower upper : num) (r : Sales.row) : bool :=
  xltb (Fin (Sales.revenue r)) lower || xgtb (Fin (Sales.revenue r)) upper.

Definition detect_revenue_outliers (df : list Sales.row) : list Sales.row :=
  let '(lower, upper) := fence (Sales.revenue <$> df) in
  filter (λ r, is_outlier lower upper r) df.

Module Report.
Record t : Type := Make {
  missing_columns : list string;
  business_rule_issues : Issues.t;
  outliers : list Sales.row
}.
End Report.

(** [columns] is [df.columns]; a [Sales.row] has all eight fields, so the
    column names travel separately. *)
Definition run_full_validation (columns : list string) (df : list Sales.row)
    : Report.t :=
  {| Report.missing_columns := validate_schema columns;
     Report.business_rule_issues := validate_business_rules df;
     Report.outliers := detect_revenue_outliers df |}.

(** [baseline_metrics]: plain sums and a mean over the whole dataset. *)
Module Baseline.
Record t : Type := Make {
  total_revenue : num;
  total_quantity : Z;
  avg_price : num
}.
End Baseline.

Definition sumZ (xs : list Z) : Z := foldr Z.add 0 xs.

Definition baseline_metrics (df : list Sales.row) : Baseline.t :=
  {| Baseline.total_revenue := Fin (qsum (Sales.revenue <$> df));
     Baseline.total_quantity := sumZ (Sales.quantity <$> df);
     Baseline.avg_price :=
       xdiv (Fin (qsum (Sales.unit_price <$> df)))
            (nz (Z.of_nat (length df))) |}.

(** A revenue strictly outside the fence [[lower, upper]]. *)
Definition outside_fence (lower upper : Qc) (r : Sales.row) : Prop :=
  (Sales.revenue r < lower)%Qc ∨ (upper < Sales.revenue r)%Qc.

Global Instance outside_fence_dec (lower upper : Qc) (r : Sales.row) :
  Decision (outside_fence lower upper r).
Proof. unfold outside_fence. apply _. Defined.

(** ** Forecaster ([src/core/forecasting.py]) *)

(** A row of [prepare_monthly_series]. *)
Module Series.
Record row : Type := Make {
  order_month : Ts.t;
  revenue : Qc;
  month : Z;
  year : Z;
  trend : Z
}.
Global Instance eq_dec : EqDecision row.
Proof. solve_decision. Defined.
End Series.

(** A row of [forecast_future].  For an empty series pandas fills the
    date with NaT and the three features with NaN, so the columns are
    nullable here. *)
Module Future.
Record row : Type := Make {
  order_month : option Ts.t;
  month : num;
  year : num;
  trend : num;
  forecast_revenue : num
}.
Global Instance eq_dec : EqDecision row.
Proof. solve_decision. Defined.
End Future.

(** Chronological order of timestamps. *)
Definition ts_le (a b : Ts.t) : Prop :=
  Ts.year a < Ts.year b ∨
  (Ts.year a = Ts.year b ∧
   (Ts.month a < Ts.month b ∨
    (Ts.month a = Ts.month b ∧ Ts.day a ≤ Ts.day b))).

Global Instance ts_le_dec (a b : Ts.t) : Decision (ts_le a b).
Proof. unfold ts_le. apply _. Defined.

(** [dt.to_period("M").dt.to_timestamp()]: the first day of the month. *)
Definition month_start (d : Ts.t) : Ts.t :=
  {| Ts.year := Ts.year d; Ts.month := Ts.month d; Ts.day := 1 |}.

Definition prepare_monthly_series (df : list Sales.row) : list Series.row :=
  let monthly :=
    (λ g : Ts.t * list Sales.row, (g.1, qsum (Sales.revenue <$> g.2)))
    <$> groupby ts_le (month_start ∘ Sales.order_date) df in
  let monthly := merge_sort (λ a b : Ts.t * Qc, ts_le a.1 b.1) monthly in
  imap (λ (i : nat) (m : Ts.t * Qc),
      {| Series.order_month := m.1;
         Series.revenue := m.2;
         Series.month := Ts.month m.1;
         Series.year := Ts.year m.1;
         Series.trend := Z.of_nat i |})
    monthly.

Definition is_leap (y : Z) : bool :=
  bool_decide (y mod 4 = 0) &&
  (negb (bool_decide (y mod 100 = 0)) || bool_decide (y mod 400 = 0)).

Definition days_in_month (y m : Z) : Z :=
  if decide (m = 2) then (if is_leap y then 29 else 28)
  else if decide (m ∈ [4; 6; 9; 11]) then 30
  else 31.

(** [stamp + pd.DateOffset(months=n)]: the month moves by [n] with the
    year carried, and the day is clipped to the length of the new month. *)
Definition add_months (d : Ts.t) (n : Z) : Ts.t :=
  let total := Ts.month d - 1 + n in
  let year := Ts.year d + total `div` 12 in
  let month := total `mod` 12 + 1 in
  {| Ts.year := year;
     Ts.month := month;
     Ts.day := Z.min (Ts.day d) (days_in_month year month) |}.

(** [Series.max()] of a datetime column; NaT ([None]) when it is empty. *)
Definition ts_max (ds : list Ts.t) : option Ts.t :=
  foldr (λ d acc,
    match acc with
    | None => Some d
    | Some m => if decide (ts_le d m) then Some m else Some d
    end) None ds.

(** [Series.max()] of an integer column; NaN when it is empty. *)
Definition z_max (zs : list Z) : option Z :=
  foldr (λ z acc,
    match acc with
    | None => Some z
    | Some m => Some (Z.max z m)
    end) None zs.

Definition opt_num (z : option Z) : num := from_option nz NaN z.

(** [model] is the fitted regressor: the prediction for the feature row
    (month, year, trend).  The body builds one row per [i] in
    [range(1, periods + 1)]; with no row at all the frame has no columns
    and selecting the feature columns raises [KeyError]. *)
Definition forecast_future (model : num → num → num → num)
    (last_monthly_df : list Series.row) (periods : Z)
    : result (list Future.row) :=
  let last_date := ts_max (Series.order_month <$> last_monthly_df) in
  let last_trend := z_max (Series.trend <$> last_monthly_df) in
  let future :=
    (λ i : Z,
       let future_date := (λ d, add_months d i) <$> last_date in
       (future_date,
        opt_num (Ts.month <$> future_date),
        opt_num (Ts.year <$> future_date),
        xadd (opt_num last_trend) (nz i)))
    <$> seqZ 1 periods in
  match future with
  | [] => Raise (KeyError "month")
  | _ =>
      Ok ((λ f : option Ts.t * num * num * num,
             let '(future_date, month, year, trend) := f in
             {| Future.order_month := future_date;
                Future.month := month;
                Future.year := year;
                Future.trend := trend;
                Future.forecast_revenue := model month year trend |})
          <$> future)
  end.

(** The month after a (year, month) pair, as the calendar has it. *)
Definition next_month (ym : Z * Z) : Z * Z :=
  if decide (ym.2 = 12) then (ym.1 + 1, 1) else (ym.1, ym.2 + 1).

(** ** DataFrames in memory

    The functions above take and return values.  The Python functions take
    references to DataFrame objects that the caller keeps, and some of them
    assign columns ([df["order_month"] = ...]).  This part puts the frames in
    a store and writes every function as the sequence of allocations, reads
    and column assignments the source makes; the values written are the
    ones the functions above compute. *)

(** A cell of a frame. *)
Inductive cell : Type :=
  | CNum (x : num)
  | CInt (z : Z)
  | CStr (s : string)
  | CDate (d : Ts.t)
  | CBool (b : bool)
  | CNone.

Global Instance cell_eq_dec : EqDecision cell.
Proof. solve_decision. Defined.

(** A frame: its column names, in order, and its rows, each a map from
    column name to cell. *)
Module Frame.
Record t : Type := Make {
  columns : list string;
  rows : list (gmap string cell)
}.
Global Instance eq_dec : EqDecision t.
Proof. solve_decision. Defined.
End Frame.

(** A row from its cells, given in column order. *)
Definition row_of (columns : list string) (cells : list cell)
    : gmap string cell :=
  list_to_map (zip columns cells).

(** [Frame.Make] from rows given as lists of cells in column order. *)
Definition frame_of (columns : list string) (rows : list (list cell))
    : Frame.t :=
  {| Frame.columns := columns;
     Frame.rows := row_of columns <$> rows |}.

(** [df[name] = col] on the value of a frame. *)
Definition set_column (name : string) (col : list cell) (f : Frame.t)
    : Frame.t :=
  {| Frame.columns :=
       if decide (name ∈ Frame.columns f) then Frame.columns f
       else Frame.columns f ++ [name];
     Frame.rows := zip_with (λ r c, <[name := c]> r) (Frame.rows f) col |}.

(** [df[mask]]: the rows a predicate keeps. *)
Definition filter_rows (keep : gmap string cell → bool) (f : Frame.t)
    : Frame.t :=
  {| Frame.columns := Frame.columns f;
     Frame.rows := filter (λ r, keep r) (Frame.rows f) |}.

Definition cell_isna (c : cell) : bool :=
  match c with
  | CNum NaN | CNone => true
  | _ => false
  end.

(** [df.dropna()]: the rows with no missing cell in any column. *)
Definition dropna (f : Frame.t) : Frame.t :=
  filter_rows
    (λ r, forallb (λ name, negb (from_option cell_isna true (r !! name)))
            (Frame.columns f))
    f.

(** [df[[names]]]: the listed columns only; a name that is not a column is
    a [KeyError]. *)
Definition select (names : list string) (f : Frame.t) : result Frame.t :=
  match filter (λ name, name ∉ Frame.columns f) names with
  | [] =>
      Ok {| Frame.columns := names;
            Frame.rows :=
              (λ r, filter (λ kv : string * cell, kv.1 ∈ names) r)
              <$> Frame.rows f |}
  | name :: _ => Raise (KeyError name)
  end.

(** [df[name]] is a [KeyError] when the column is absent. *)
Definition require (name : string) (f : Frame.t) : result unit :=
  if decide (name ∈ Frame.columns f) then Ok () else Raise (KeyError name).

(** *** Typed views

    The dataset's columns are typed; a cell of another kind, or of a column
    the function at hand never reads, is read as the default of its kind. *)

Definition cell_q (c : option cell) : Qc :=
  match c with
  | Some (CNum (Fin q)) => q
  | Some (CInt z) => qz z
  | _ => 0%Qc
  end.

Definition cell_num (c : option cell) : num :=
  match c with
  | Some (CNum x) => x
  | Some (CInt z) => nz z
  | _ => NaN
  end.

Definition cell_z (c : option cell) : Z :=
  match c with Some (CInt z) => z | _ => 0 end.

Definition cell_id (c : option cell) : option Z :=
  match c with Some (CInt z) => Some z | _ => None end.

Definition cell_str (c : option cell) : string :=
  match c with Some (CStr s) => s | _ => "" end.

Definition cell_date (c : option cell) : Ts.t :=
  match c with Some (CDate d) => d | _ => Ts.Make 1970 1 1 end.

Definition sales_of_cells (r : gmap string cell) : Sales.row :=
  {| Sales.order_id := cell_id (r !! "order_id");
     Sales.order_date := cell_date (r !! "order_date");
     Sales.product_name := cell_str (r !! "product_name");
     Sales.category := cell_str (r !! "category");
     Sales.region := cell_str (r !! "region");
     Sales.quantity := cell_z (r !! "quantity");
     Sales.unit_price := cell_q (r !! "unit_price");
     Sales.revenue := cell_q (r !! "revenue") |}.

Definition sales_rows (f : Frame.t) : list Sales.row :=
  sales_of_cells <$> Frame.rows f.

Definition cells_of_sales (r : Sales.row) : list cell :=
  [ from_option CInt CNone (Sales.order_id r);
    CDate (Sales.order_date r);
    CStr (Sales.product_name r);
    CStr (Sales.category r);
    CStr (Sales.region r);
    CInt (Sales.quantity r);
    CNum (Fin (Sales.unit_price r));
    CNum (Fin (Sales.revenue r)) ].

(** The frame of a dataset with exactly the eight required columns. *)
Definition frame_of_sales (df : list Sales.row) : Frame.t :=
  frame_of REQUIRED_COLUMNS (cells_of_sales <$> df).

Definition monthly_of_cells (r : gmap string cell) : Monthly.row :=
  {| Monthly.order_month := cell_str (r !! "order_month");
     Monthly.revenue := cell_q (r !! "revenue");
     Monthly.orders := cell_z (r !! "orders");
     Monthly.aov := cell_num (r !! "aov") |}.

Definition monthly_rows (f : Frame.t) : list Monthly.row :=
  monthly_of_cells <$> Frame.rows f.

(** *** The store and its operations *)

(** The store holds the frame objects; a reference is the position of its
    object.  An operation may fail, and changes the store up to there. *)
Abbreviation store := (list Frame.t).
Abbreviation ref := nat.
Definition op (A : Type) : Type := store → result A * store.

Global Instance op_ret : MRet op := λ A a σ, (Ok a, σ).
Global Instance op_bind : MBind op := λ A B k m σ,
  match m σ with
  | (Ok a, σ') => k a σ'
  | (Raise e, σ') => (Raise e, σ')
  end.

(** A pure computation, possibly failing, inside an operation. *)
Definition lift {A} (r : result A) : op A := λ σ, (r, σ).

(** A new frame object. *)
Definition new_frame (f : Frame.t) : op ref :=
  λ σ, (Ok (length σ), σ ++ [f]).

(** A reference outside the store does not occur in a run: every reference
    comes from the caller's store or from [new_frame]. *)
Definition read (r : ref) : op Frame.t :=
  λ σ, match σ !! r with
       | Some f => (Ok f, σ)
       | None => (Raise (KeyError "<object>"), σ)
       end.

Definition write (r : ref) (f : Frame.t) : op unit :=
  λ σ, match σ !! r with
       | Some _ => (Ok (), <[r := f]> σ)
       | None => (Raise (KeyError "<object>"), σ)
       end.

(** [df.copy()]. *)
Definition copy (df : ref) : op ref := f ← read df; new_frame f.

(** [df[name] = col]: the object [df] refers to is changed in place. *)
Definition setitem (df : ref) (name : string) (col : list cell) : op unit :=
  f ← read df; write df (set_column name col f).

(** *** The functions, on references *)

Definition monthly_kpis_op (df : ref) : op ref :=
  df ← copy df;
  f ← read df;
  _ ← lift (require "order_date" f);
  _ ← setitem df "order_month"
        ((CStr ∘ month_label ∘ Sales.order_date) <$> sales_rows f);
  f ← read df;
  _ ← lift (require "revenue" f);
  _ ← lift (require "order_id" f);
  let kpis := monthly_kpis (sales_rows f) in
  monthly ← new_frame
    (frame_of ["order_month"; "revenue"; "orders"]
       ((λ m, [ CStr (Monthly.order_month m);
                CNum (Fin (Monthly.revenue m));
                CInt (Monthly.orders m) ]) <$> kpis));
  _ ← setitem monthly "aov" ((CNum ∘ Monthly.aov) <$> kpis);
  mret monthly.

Definition revenue_decomposition_op (monthly_df : ref) : op ref :=
  df ← copy monthly_df;
  f ← read df;
  let work := work_rows (monthly_rows f) in
  _ ← lift (require "revenue" f);
  _ ← setitem df "prev_revenue" ((CNum ∘ Work.prev_revenue) <$> work);
  _ ← lift (require "orders" f);
  _ ← setitem df "prev_orders" ((CNum ∘ Work.prev_orders) <$> work);
  _ ← lift (require "aov" f);
  _ ← setitem df "prev_aov" ((CNum ∘ Work.prev_aov) <$> work);
  _ ← setitem df "revenue_change" ((CNum ∘ Work.revenue_change) <$> work);
  _ ← setitem df "orders_effect" ((CNum ∘ Work.orders_effect) <$> work);
  _ ← setitem df "aov_effect" ((CNum ∘ Work.aov_effect) <$> work);
  f ← read df;
  df ← new_frame (dropna f);
  f ← read df;
  out ← lift (select [ "order_month"; "revenue"; "revenue_change";
                       "orders_effect"; "aov_effect" ] f);
  new_frame out.

Definition prepare_monthly_series_op (df : ref) : op ref :=
  df ← copy df;
  f ← read df;
  _ ← lift (require "order_date" f);
  _ ← setitem df "order_month"
        ((CDate ∘ month_start ∘ Sales.order_date) <$> sales_rows f);
  f ← read df;
  _ ← lift (require "revenue" f);
  let series := prepare_monthly_series (sales_rows f) in
  monthly ← new_frame
    (frame_of ["order_month"; "revenue"]
       ((λ s, [ CDate (Series.order_month s);
                CNum (Fin (Series.revenue s)) ]) <$> series));
  _ ← setitem monthly "month" ((CInt ∘ Series.month) <$> series);
  _ ← setitem monthly "year" ((CInt ∘ Series.year) <$> series);
  _ ← setitem monthly "trend" ((CInt ∘ Series.trend) <$> series);
  mret monthly.

(** The common body of the two Pareto functions; [name] is the grouping
    column and [key] reads it. *)
Definition pareto_by_op (name : string) (key : Sales.row → string)
    (df : ref) (threshold : num) : op ref :=
  f ← read df;
  _ ← lift (require name f);
  _ ← lift (require "revenue" f);
  let rows := pareto_by key (sales_rows f) threshold in
  rev ← new_frame
    (frame_of [name; "revenue"]
       ((λ p, [ CStr (Pareto.label p); CNum (Fin (Pareto.revenue p)) ])
        <$> rows));
  _ ← setitem rev "revenue_share" ((CNum ∘ Pareto.revenue_share) <$> rows);
  _ ← setitem rev "cumulative_share"
        ((CNum ∘ Pareto.cumulative_share) <$> rows);
  _ ← setitem rev "pareto_flag" ((CBool ∘ Pareto.pareto_flag) <$> rows);
  mret rev.

Definition pareto_products_op (df : ref) (threshold : num) : op ref :=
  pareto_by_op "product_name" Sales.product_name df threshold.

Definition pareto_categories_op (df : ref) (threshold : num) : op ref :=
  pareto_by_op "category" Sales.category df threshold.

Definition validate_schema_op (df : ref) : op (list string) :=
  f ← read df;
  mret (validate_schema (Frame.columns f)).

(** The three row subsets are new frames. *)
Definition validate_business_rules_op (df : ref) : op (ref * ref * ref) :=
  f ← read df;
  _ ← lift (require "quantity" f);
  invalid_quantity ←
    new_frame (filter_rows (quantity_invalid ∘ sales_of_cells) f);
  _ ← lift (require "unit_price" f);
  invalid_price ← new_frame (filter_rows (price_invalid ∘ sales_of_cells) f);
  _ ← lift (require "revenue" f);
  revenue_mismatch ← new_frame (filter_rows (mismatch ∘ sales_of_cells) f);
  mret (invalid_quantity, invalid_price, revenue_mismatch).

Definition detect_revenue_outliers_op (df : ref) : op ref :=
  f ← read df;
  _ ← lift (require "revenue" f);
  let '(lower, upper) := fence (Sales.revenue <$> sales_rows f) in
  new_frame (filter_rows (is_outlier lower upper ∘ sales_of_cells) f).

Definition run_full_validation_op (df : ref)
    : op (list string * (ref * ref * ref) * ref) :=
  missing_columns ← validate_schema_op df;
  business_rule_issues ← validate_business_rules_op df;
  outliers ← detect_revenue_outliers_op df;
  mret (missing_columns, business_rule_issues, outliers).

Definition baseline_metrics_op (df : ref) : op Baseline.t :=
  f ← read df;
  _ ← lift (require "revenue" f);
  _ ← lift (require "quantity" f);
  _ ← lift (require "unit_price" f);
  mret (baseline_metrics (sales_rows f)).

(** Every operation of the core that takes a dataset (or, for
    [revenue_decomposition], a monthly frame), as the change it makes to
    the store. *)
Definition core_operations (df : ref) (threshold : num)
    : list (store → store) :=
  [ λ σ, (monthly_kpis_op df σ).2;
    λ σ, (revenue_decomposition_op df σ).2;
    λ σ, (prepare_monthly_series_op df σ).2;
    λ σ, (pareto_products_op df threshold σ).2;
    λ σ, (pareto_categories_op df threshold σ).2;
    λ σ, (validate_schema_op df σ).2;
    λ σ, (validate_business_rules_op df σ).2;
    λ σ, (detect_revenue_outliers_op df σ).2;
    λ σ, (run_full_validation_op df σ).2;
    λ σ, (baseline_metrics_op df σ).2 ].

(** Running [m] from a store that extends [σ0] leaves the objects of [σ0]
    as they are, and a result satisfies [Q]. *)
Definition keeps {A} (σ0 : store) (m : op A) (Q : A → Prop) : Prop :=
  ∀ σ, σ0 `prefix_of` σ →
    σ0 `prefix_of` (m σ).2 ∧ ∀ a, (m σ).1 = Ok a → Q a.

(** A reference to an object allocated after [σ0]. *)
Definition fresh_for (σ0 : store) (r : ref) : Prop := (length σ0 ≤ r)%nat.

(** * Properties *)

(** ** Arithmetic of [num] *)

Lemma qz_0 : qz 0 = 0%Qc.
Proof. by apply Qc_is_canon. Qed.

Lemma qz_1 : qz 1 = 1%Qc.
Proof. by apply Qc_is_canon. Qed.

Lemma qz_100_ne_0 : qz 100 ≠ 0%Qc.
Proof. by intros [=]. Qed.

Lemma xdiv_100_fin (q : Qc) : xdiv (Fin q) (nz 100) = Fin (q / qz 100)%Qc.
Proof. unfold xdiv, nz. by rewrite decide_False by apply qz_100_ne_0. Qed.

(** ** Scenario simulator *)

Lemma simulate_scenario_fin (k : scalar_kind) (r p v d : Qc) :
  r ≠ 0%Qc →
  simulate_scenario k (Fin r) (Fin p) (Fin v) (Fin d) =
  let sim := (r * (1 + p / qz 100) * (1 + v / qz 100) * (1 - d / qz 100))%Qc in
  Ok (scenario_dict (Fin sim) (Fin (sim - r)%Qc)
        (Fin ((sim - r) / r * qz 100)%Qc)).
Proof.
  intros Hr. unfold simulate_scenario. rewrite !xdiv_100_fin.
  unfold nz. rewrite qz_1. cbn [xadd xsub xneg xmul].
  assert (Hk : ∀ x, truediv k (Fin x) (Fin r) = Ok (Fin (x / r)%Qc)).
  { intros x. unfold truediv, xdiv.
    destruct k; repeat case_decide; congruence. }
  rewrite Hk. cbn. reflexivity.
Qed.

(** C2 (amended): for every finite non-zero baseline [R], whether it is a
    Python or a numpy scalar, the identity scenario returns
    [simulated_revenue = R], [absolute_change = 0] and
    [percentage_change = 0]. *)
Theorem simulate_scenario_identity (k : scalar_kind) (r : Qc) :
  r ≠ 0%Qc →
  simulate_scenario k (Fin r) (nz 0) (nz 0) (nz 0) =
  Ok (scenario_dict (Fin r) (nz 0) (nz 0)).
Proof.
  intros Hr. unfold nz at 1 2 3. rewrite simulate_scenario_fin by done.
  cbn zeta. unfold nz. rewrite qz_0.
  assert (Hsim : (r * (1 + 0 / qz 100) * (1 + 0 / qz 100)
                    * (1 - 0 / qz 100))%Qc = r).
  { field. apply qz_100_ne_0. }
  rewrite Hsim. do 3 f_equal; f_equal; field; done.
Qed.

Lemma simulate_scenario_identity_witness :
  qz 100000 ≠ 0%Qc ∧
  simulate_scenario PyFloat (nz 100000) (nz 0) (nz 0) (nz 0) =
  Ok (scenario_dict (nz 100000) (nz 0) (nz 0)).
Proof.
  split; [by intros [=] |].
  apply (simulate_scenario_identity PyFloat (qz 100000)). by intros [=].
Defined.

(** C2 as stated fails at [R = 0]: with Python scalars the call raises
    [ZeroDivisionError]; with a numpy baseline [percentage_change] is NaN.
    Either way the identity result is not returned. *)
Lemma simulate_scenario_identity_fails_at_zero :
  simulate_scenario PyFloat (nz 0) (nz 0) (nz 0) (nz 0)
    = Raise ZeroDivisionError
  ∧ simulate_scenario NpFloat64 (nz 0) (nz 0) (nz 0) (nz 0)
    = Ok (scenario_dict (nz 0) (nz 0) NaN)
  ∧ simulate_scenario PyFloat (nz 0) (nz 0) (nz 0) (nz 0)
    ≠ Ok (scenario_dict (nz 0) (nz 0) (nz 0))
  ∧ simulate_scenario NpFloat64 (nz 0) (nz 0) (nz 0) (nz 0)
    ≠ Ok (scenario_dict (nz 0) (nz 0) (nz 0)).
Proof. repeat split; compute_done. Qed.

(** *** Batch simulation *)

Lemma get_pct_numeric (s : gmap string pyval) (key : string) :
  (∀ t, s !! key ≠ Some (VStr t)) → get_pct s key = Ok (pct_of s key).
Proof.
  intros Hs. unfold get_pct, pct_of.
  destruct (s !! key) as [[x|t]|] eqn:E; try done. by destruct (Hs t).
Qed.

(** [simulate_scenario] returns unless a Python scalar baseline is zero. *)
Lemma simulate_scenario_returns (k : scalar_kind) (R p v d : num) :
  (k = PyFloat → R ≠ Fin 0%Qc) →
  ∃ sim delta pct,
    simulate_scenario k R p v d = Ok (scenario_dict sim delta pct).
Proof.
  intros Hk. unfold simulate_scenario, truediv.
  destruct k; [rewrite decide_False by auto |]; cbn; eauto.
Qed.

Lemma scenario_dict_lookup (sim delta pct : num) (key : string) :
  key ∈ result_keys → is_Some (scenario_dict sim delta pct !! key).
Proof.
  unfold result_keys, scenario_dict. rewrite !elem_of_cons, elem_of_nil.
  intros [->|[->|[->|[]]]]; by simplify_map_eq.
Qed.

Lemma batch_loop_spec (k : scalar_kind) (R : num)
    (scenarios results : list (gmap string pyval)) :
  (k = PyFloat → R ≠ Fin 0%Qc) →
  Forall numeric_params scenarios →
  ∃ outs,
    batch_loop k R scenarios results = Ok (results ++ outs) ∧
    Forall2 (λ s o, batch_step k R s = Ok o) scenarios outs.
Proof.
  intros Hk Hnum. revert results.
  induction Hnum as [|s rest Hs _ IH]; intros results.
  - exists []. by rewrite app_nil_r.
  - assert (Hstep : ∃ o, batch_step k R s = Ok o).
    { unfold batch_step.
      rewrite !get_pct_numeric by (intros t; apply Hs; set_solver). cbn.
      destruct (simulate_scenario_returns k R (pct_of s "price_change")
                  (pct_of s "volume_change") (pct_of s "discount") Hk)
        as (sim & delta & pct & ->).
      cbn. eauto. }
    destruct Hstep as [o Ho].
    destruct (IH (results ++ [o])) as (outs & Hloop & Hall).
    exists (o :: outs). split.
    + cbn. rewrite Ho. cbn. rewrite Hloop. by rewrite <- app_assoc.
    + by constructor.
Qed.

Lemma DataFrame_of_records_length (records : list (gmap string pyval)) :
  length (DataFrame_of_records records) = length records.
Proof. unfold DataFrame_of_records. by rewrite length_fmap. Qed.

(** C10: [batch_simulation] merges each scenario dict into its computed
    outcome after computing it.  Whenever the loop runs (the percentages are
    numbers and no Python-scalar baseline is zero) it returns one row per
    scenario, in order; every key/value pair of the scenario is in its row,
    so a scenario that carries one of the three result keys overwrites the
    computed value; and every result key the scenario does not carry holds
    the value [simulate_scenario] computed. *)
Theorem batch_simulation_update (k : scalar_kind) (R : num)
    (scenarios : list (gmap string pyval)) :
  (k = PyFloat → R ≠ Fin 0%Qc) →
  Forall numeric_params scenarios →
  ∃ rows,
    batch_simulation k R scenarios = Ok rows ∧
    length rows = length scenarios ∧
    ∀ (i : nat) (s : gmap string pyval), scenarios !! i = Some s →
      ∃ row outcome,
        rows !! i = Some row ∧
        simulate_scenario k R (pct_of s "price_change")
          (pct_of s "volume_change") (pct_of s "discount") = Ok outcome ∧
        (∀ key v, s !! key = Some v → row !! key = Some v) ∧
        (∀ key, key ∈ result_keys → s !! key = None →
           is_Some (outcome !! key) ∧ row !! key = outcome !! key).
Proof.
  intros Hk Hnum.
  destruct (batch_loop_spec k R scenarios [] Hk Hnum) as (outs & Hloop & Hall).
  exists (DataFrame_of_records outs). unfold batch_simulation.
  rewrite Hloop. cbn. split; [done |].
  rewrite DataFrame_of_records_length. split.
  { symmetry. by eapply Forall2_length. }
  intros i s Hi.
  destruct (Forall2_lookup_l _ _ _ _ _ Hall Hi) as (o & Ho & Hstep).
  assert (Hs : numeric_params s).
  { eapply Forall_lookup_1; eauto. }
  unfold batch_step in Hstep.
  rewrite !get_pct_numeric in Hstep by (intros t; apply Hs; set_solver).
  cbn in Hstep.
  destruct (simulate_scenario_returns k R (pct_of s "price_change")
              (pct_of s "volume_change") (pct_of s "discount") Hk)
    as (sim & delta & pct & Hsim).
  rewrite Hsim in Hstep. cbn in Hstep. injection Hstep as <-.
  assert (Hrow : ∃ row, DataFrame_of_records outs !! i = Some row ∧
            ∀ key v, (s ∪ scenario_dict sim delta pct) !! key = Some v →
                     row !! key = Some v).
  { unfold DataFrame_of_records. rewrite list_lookup_fmap, Ho. cbn.
    eexists. split; [done |]. intros key v Hv.
    by apply lookup_union_Some_l. }
  destruct Hrow as (row & Hrow & Hkeys).
  exists row, (scenario_dict sim delta pct). repeat split; try done.
  - intros key v Hv. apply Hkeys. by apply lookup_union_Some_l.
  - by apply scenario_dict_lookup.
  - destruct (scenario_dict_lookup sim delta pct key) as [v Hv]; [done |].
    rewrite Hv. apply Hkeys. rewrite lookup_union_r; done.
Qed.

Lemma batch_simulation_update_witness :
  ∃ rows,
    batch_simulation PyFloat (nz 1000)
      [ {[ "price_change" := VNum (nz 10) ]};
        {[ "discount" := VNum (nz 5); "simulated_revenue" := VStr "kept" ]} ]
      = Ok rows ∧
    length rows = 2%nat.
Proof.
  destruct (batch_simulation_update PyFloat (nz 1000)
    [ {[ "price_change" := VNum (nz 10) ]};
      {[ "discount" := VNum (nz 5); "simulated_revenue" := VStr "kept" ]} ])
    as (rows & Hrows & Hlen & _).
  - intros _. by intros [=].
  - repeat constructor; intros key t Hin;
      repeat (apply elem_of_cons in Hin as [->|Hin]); try done;
      by apply elem_of_nil in Hin.
  - exists rows. by split.
Defined.

(** A scenario that carries a result key keeps its own value there: the
    computed [simulated_revenue] (950) is overwritten. *)
Example batch_simulation_overwrites :
  batch_simulation PyFloat (nz 1000)
    [ {[ "discount" := VNum (nz 5); "simulated_revenue" := VStr "kept" ]} ]
  = Ok [ <["discount" := VNum (nz 5)]>
          (<["simulated_revenue" := VStr "kept"]>
            (scenario_dict (nz 950) (nz (-50)) (nz (-5)))) ].
Proof. compute_done. Qed.

(** ** KPI engine *)

Lemma qz_eq_0 (z : Z) : qz z = 0%Qc → z = 0.
Proof.
  unfold qz. intros Hz. apply Q2Qc_eq_iff in Hz.
  unfold Qeq in Hz. cbn in Hz. lia.
Qed.

Lemma xdiv_fin (a : Qc) (z : Z) :
  z ≠ 0 → xdiv (Fin a) (nz z) = Fin (a / qz z)%Qc.
Proof.
  intros Hz. unfold xdiv, nz. rewrite decide_False; [done |].
  intros ?. by apply Hz, qz_eq_0.
Qed.

(** Dividing by a zero count never gives a finite value. *)
Lemma xdiv_zero (a : Qc) : xdiv (Fin a) (nz 0) = inf_of (sgn (Fin a)).
Proof. unfold xdiv, nz. by rewrite decide_True by apply qz_0. Qed.

(** Whatever a month with no orders is compared with, its [aov_effect] is
    NaN, so [dropna] removes the row. *)
Lemma aov_effect_zero_orders (a : Qc) (y : num) :
  xmul (xsub (xdiv (Fin a) (nz 0)) y) (nz 0) = NaN.
Proof.
  rewrite xdiv_zero. unfold nz. rewrite qz_0.
  assert (H0 : sgn (Fin 0%Qc) = Eq) by done.
  destruct (sgn (Fin a)), y as [b| | |]; cbn; try done;
    try (by rewrite ?H0); unfold sgn_mul; cbn.
Qed.

Lemma lookup_shift {A} (xs : list A) (i : nat) (p : option A) :
  shift xs !! i = Some p →
  match i with
  | O => p = None
  | S j => ∃ x, p = Some x ∧ xs !! j = Some x
  end.
Proof.
  unfold shift. intros Hi. apply lookup_take_Some in Hi as [Hi _].
  destruct i as [|j]; [cbn in Hi; congruence |].
  change ((Some <$> xs) !! j = Some p) in Hi.
  rewrite list_lookup_fmap in Hi.
  destruct (xs !! j) as [x|]; cbn in Hi; [|done].
  exists x. split; congruence.
Qed.

Lemma notna_work_row_prev (cur : Monthly.row) : notna (work_row None cur) = false.
Proof. unfold notna, work_row. cbn. by rewrite !andb_false_r. Qed.

(** Every row of the output comes from a month and its predecessor, and
    survived [dropna]. *)
Lemma revenue_decomposition_row (monthly_df : list Monthly.row)
    (row : Decomp.row) :
  row ∈ revenue_decomposition monthly_df →
  ∃ (i : nat) (prev cur : Monthly.row),
    monthly_df !! i = Some prev ∧ monthly_df !! S i = Some cur ∧
    notna (work_row (Some prev) cur) = true ∧
    Decomp.revenue_change row = Work.revenue_change (work_row (Some prev) cur) ∧
    Decomp.orders_effect row = Work.orders_effect (work_row (Some prev) cur) ∧
    Decomp.aov_effect row = Work.aov_effect (work_row (Some prev) cur).
Proof.
  unfold revenue_decomposition, work_rows. cbn zeta.
  intros Hrow. apply list_elem_of_fmap in Hrow as (w & -> & Hw).
  apply list_elem_of_filter in Hw as [Hna Hw].
  apply list_elem_of_lookup in Hw as [i Hi].
  apply lookup_zip_with_Some in Hi as (p & cur & -> & Hp & Hcur).
  apply lookup_shift in Hp. destruct i as [|j].
  - subst p. rewrite notna_work_row_prev in Hna. done.
  - destruct Hp as (prev & -> & Hprev).
    exists j, prev, cur. repeat split; try done.
    by apply Is_true_true.
Qed.

(** C1 (amended): every row of [revenue_decomposition] comes from a month
    [cur] and the month [prev] before it, with [revenue_change],
    [orders_effect] and [aov_effect] as the specification gives them; and
    whenever the previous month has a non-zero order count, [revenue_change]
    is the sum of [orders_effect] and [aov_effect]. *)
Theorem revenue_decomposition_additive (monthly_df : list Monthly.row)
    (row : Decomp.row) :
  Forall kpi_consistent monthly_df →
  row ∈ revenue_decomposition monthly_df →
  ∃ (i : nat) (prev cur : Monthly.row),
    monthly_df !! i = Some prev ∧ monthly_df !! S i = Some cur ∧
    Decomp.revenue_change row =
      xsub (Fin (Monthly.revenue cur)) (Fin (Monthly.revenue prev)) ∧
    Decomp.orders_effect row =
      xmul (xsub (nz (Monthly.orders cur)) (nz (Monthly.orders prev)))
           (Monthly.aov prev) ∧
    Decomp.aov_effect row =
      xmul (xsub (Monthly.aov cur) (Monthly.aov prev))
           (nz (Monthly.orders cur)) ∧
    (Monthly.orders prev ≠ 0 →
     Decomp.revenue_change row =
       xadd (Decomp.orders_effect row) (Decomp.aov_effect row)).
Proof.
  intros Hall Hrow.
  destruct (revenue_decomposition_row _ _ Hrow)
    as (i & prev & cur & Hprev & Hcur & Hna & Hrc & Hoe & Hae).
  exists i, prev, cur. repeat split; try done.
  intros Hop. rewrite Hrc, Hoe, Hae.
  assert (Hkp : kpi_consistent prev) by (eapply Forall_lookup_1; eauto).
  assert (Hkc : kpi_consistent cur) by (eapply Forall_lookup_1; eauto).
  unfold kpi_consistent in Hkp, Hkc.
  unfold notna, work_row in Hna. unfold work_row. cbn in Hna |- *.
  rewrite Hkp, Hkc in Hna |- *. rewrite (xdiv_fin _ _ Hop) in Hna |- *.
  destruct (decide (Monthly.orders cur = 0)) as [Hoc|Hoc].
  - rewrite Hoc in Hna. rewrite aov_effect_zero_orders in Hna.
    cbn in Hna. by rewrite !andb_false_r in Hna.
  - rewrite (xdiv_fin _ _ Hoc). unfold nz. cbn. f_equal. field.
    split; intros ?; [by apply Hop, qz_eq_0 | by apply Hoc, qz_eq_0].
Qed.

Lemma revenue_decomposition_additive_witness :
  ∃ (i : nat) (prev cur : Monthly.row),
    [ Monthly.Make "2024-01" (qz 100) 2 (nz 50);
      Monthly.Make "2024-02" (qz 180) 3 (nz 60) ] !! i = Some prev ∧
    Monthly.orders prev ≠ 0 ∧
    xsub (nz 180) (nz 100) =
      xadd (xmul (xsub (nz 3) (nz 2)) (nz 50))
           (xmul (xsub (nz 60) (nz 50)) (nz 3)).
Proof.
  destruct (revenue_decomposition_additive
    [ Monthly.Make "2024-01" (qz 100) 2 (nz 50);
      Monthly.Make "2024-02" (qz 180) 3 (nz 60) ]
    (Decomp.Make "2024-02" (nz 180) (xsub (nz 180) (nz 100))
       (xmul (xsub (nz 3) (nz 2)) (nz 50))
       (xmul (xsub (nz 60) (nz 50)) (nz 3))))
    as (i & prev & cur & Hprev & Hcur & Hrc & Hoe & Hae & Hadd).
  - compute_done.
  - vm_compute. left.
  - destruct i as [|[|i]]; cbn in Hprev, Hcur; simplify_eq.
    exists 0%nat, (Monthly.Make "2024-01" (qz 100) 2 (nz 50)),
      (Monthly.Make "2024-02" (qz 180) 3 (nz 60)).
    split; [done |]. split; [done |]. apply Hadd. done.
Defined.

(** C1 as stated fails on a month without orders followed by a month with
    some: the first month's AOV is [100 / 0 = inf], the second row survives
    [dropna] (an infinity is not a missing value) and its two effects are
    [+inf] and [-inf], whose sum is NaN, while [revenue_change] is 100.  The
    monthly sequence is the one [monthly_kpis] returns for a dataset whose
    January rows have no [order_id]. *)
Lemma revenue_decomposition_not_additive :
  let df :=
    [ Sales.Make None (Ts.Make 2024 1 5) "pen" "office" "north" 1
        (qz 100) (qz 100);
      Sales.Make (Some 1) (Ts.Make 2024 2 3) "pen" "office" "north" 1
        (qz 120) (qz 120);
      Sales.Make (Some 2) (Ts.Make 2024 2 9) "ink" "office" "north" 1
        (qz 80) (qz 80) ] in
  monthly_kpis df =
    [ Monthly.Make "2024-01" (qz 100) 0 PInf;
      Monthly.Make "2024-02" (qz 200) 2 (nz 100) ]
  ∧ Forall kpi_consistent (monthly_kpis df)
  ∧ revenue_decomposition (monthly_kpis df) =
    [ Decomp.Make "2024-02" (nz 200) (nz 100) PInf NInf ]
  ∧ xadd PInf NInf = NaN
  ∧ nz 100 ≠ xadd PInf NInf.
Proof.
  cbn zeta. repeat split; compute_done.
Qed.

(** *** Grouping conserves sums *)

Lemma qsum_cons (x : Qc) (xs : list Qc) : qsum (x :: xs) = (x + qsum xs)%Qc.
Proof. done. Qed.

Lemma qsum_Permutation (xs ys : list Qc) : xs ≡ₚ ys → qsum xs = qsum ys.
Proof.
  induction 1 as [|x xs ys _ IH|x y xs|xs ys zs _ IH1 _ IH2];
    rewrite ?qsum_cons.
  - done.
  - by rewrite IH.
  - ring.
  - congruence.
Qed.

Section groupby_sum.
Context {R K : Type} `{EqDecision K}.
Context (key : R → K) (f : R → Qc).

(** The sum of [f] over the rows whose key is [k]. *)
Let group_sum (rows : list R) (k : K) : Qc :=
  qsum (f <$> filter (λ r, key r = k) rows).

Lemma group_sum_cons (r : R) (rows : list R) (k : K) :
  group_sum (r :: rows) k =
  ((if decide (key r = k) then f r else 0) + group_sum rows k)%Qc.
Proof.
  unfold group_sum. rewrite filter_cons.
  destruct (decide (key r = k)); [done | by rewrite Qcplus_0_l].
Qed.

(** A key that occurs once among [ks] picks its summand once. *)
Lemma qsum_indicator (a : K) (c : Qc) (ks : list K) :
  NoDup ks →
  qsum ((λ k, if decide (a = k) then c else 0%Qc) <$> ks) =
  if decide (a ∈ ks) then c else 0%Qc.
Proof.
  induction 1 as [|k ks Hk _ IH]; [done |].
  rewrite fmap_cons, qsum_cons, IH. destruct (decide (a = k)) as [->|Hne].
  - rewrite decide_False by done. rewrite decide_True by left. ring.
  - destruct (decide (a ∈ ks)) as [Hin|Hin].
    + rewrite decide_True by (by right). ring.
    + rewrite decide_False; [ring |]. by intros [?|?]%elem_of_cons.
Qed.

Lemma qsum_groups (ks : list K) (rows : list R) :
  NoDup ks → (∀ r, r ∈ rows → key r ∈ ks) →
  qsum (group_sum rows <$> ks) = qsum (f <$> rows).
Proof.
  intros Hnd. induction rows as [|r rows IH]; intros Hks.
  - clear. induction ks as [|k ks IHks]; [done |].
    rewrite fmap_cons, qsum_cons, IHks. unfold group_sum. cbn. ring.
  - assert (Hsplit : qsum (group_sum (r :: rows) <$> ks) =
      (qsum ((λ k, if decide (key r = k) then f r else 0%Qc) <$> ks)
       + qsum (group_sum rows <$> ks))%Qc).
    { clear. induction ks as [|k ks IHks]; [cbn; ring |].
      rewrite !fmap_cons, !qsum_cons, IHks, group_sum_cons. ring. }
    rewrite Hsplit, qsum_indicator by done.
    rewrite decide_True by (apply Hks; left).
    rewrite IH by (intros; apply Hks; by right). done.
Qed.

Lemma groupby_sum_conserved (le : relation K)
    `{!∀ x y, Decision (le x y)} (rows : list R) :
  qsum ((λ g : K * list R, qsum (f <$> g.2)) <$> groupby le key rows)
  = qsum (f <$> rows).
Proof.
  unfold groupby, group_keys. rewrite <- list_fmap_compose.
  rewrite (qsum_Permutation _ (group_sum rows <$> remove_dups (key <$> rows))).
  - apply qsum_groups; [apply NoDup_remove_dups |].
    intros r Hr. rewrite elem_of_remove_dups. by apply list_elem_of_fmap_2.
  - apply fmap_Permutation, merge_sort_Permutation.
Qed.
End groupby_sum.



(** *** Interpretation of a decomposition row *)

(** C8: [interpret_revenue_change] depends on its row only through the
    signs of [orders_effect] and [aov_effect]; each sign selects one of two
    fixed phrases, independently of the other; the two phrases are joined
    (with [" & "] between them); a zero effect is not positive and takes the
    decrease/lower phrase. *)
Theorem interpret_revenue_change_signs (row : Decomp.row) :
  interpret_revenue_change row =
    orders_phrase (xgtb (Decomp.orders_effect row) (nz 0))
    +:+ " & " +:+
    aov_phrase (xgtb (Decomp.aov_effect row) (nz 0))
  ∧ xgtb (nz 0) (nz 0) = false
  ∧ orders_phrase (xgtb (nz 0) (nz 0)) = "Decrease driven by lower order volume"
  ∧ aov_phrase (xgtb (nz 0) (nz 0)) = "Lower average order value impacted revenue".
Proof.
  split; [| by repeat split].
  unfold interpret_revenue_change, orders_phrase, aov_phrase.
  by destruct (xgtb (Decomp.orders_effect row) (nz 0)),
    (xgtb (Decomp.aov_effect row) (nz 0)).
Qed.

(** ** Pareto engine *)

Lemma xadd_0_l (x : num) : xadd (Fin 0%Qc) x = x.
Proof. destruct x; cbn; try done. by rewrite Qcplus_0_l. Qed.

Lemma cumsum_from_length (acc : num) (xs : list num) :
  length (cumsum_from acc xs) = length xs.
Proof.
  revert acc. induction xs as [|x xs IH]; intros acc; [done |].
  cbn. destruct (is_nan x); cbn; by rewrite IH.
Qed.

(** On finite cells the running sum ends at the total. *)
Lemma cumsum_from_last (a : Qc) (xs : list Qc) :
  last (cumsum_from (Fin a) (Fin <$> xs)) =
  match xs with [] => None | _ => Some (Fin (a + qsum xs)%Qc) end.
Proof.
  revert a. induction xs as [|x xs IH]; intros a; [done |].
  cbn [fmap list_fmap cumsum_from is_nan xadd]. rewrite qsum_cons.
  destruct xs as [|y xs].
  - cbn. do 2 f_equal. ring.
  - rewrite last_cons. change (Fin y :: list_fmap _ _ Fin xs) with (Fin <$> y :: xs).
    rewrite IH. do 2 f_equal. ring.
Qed.

(** With non-negative finite cells the running sum never decreases. *)
Lemma cumsum_from_mono (a : Qc) (xs : list Qc) (i : nat) (x y : num) :
  Forall (λ s, 0 ≤ s)%Qc xs →
  cumsum_from (Fin a) (Fin <$> xs) !! i = Some x →
  cumsum_from (Fin a) (Fin <$> xs) !! S i = Some y →
  xleb x y = true.
Proof.
  intros Hpos. revert a i. induction Hpos as [|s xs Hs Hxs IH]; intros a i; [done |].
  cbn [fmap list_fmap cumsum_from is_nan xadd].
  destruct i as [|i]; cbn [lookup list_lookup].
  - intros [= <-]. destruct xs as [|s' xs]; [done |].
    cbn [fmap list_fmap cumsum_from is_nan xadd lookup list_lookup].
    intros [= <-]. cbn. apply bool_decide_eq_true.
    assert (Hs' : (0 ≤ s')%Qc) by (by inversion Hxs).
    rewrite <- (Qcplus_0_r (a + s)) at 1. by apply Qcplus_le_mono_l.
  - apply IH.
Qed.

Lemma pareto_groups_total (key : Sales.row → string) (df : list Sales.row) :
  qsum (snd <$> pareto_groups key df) = qsum (Sales.revenue <$> df).
Proof.
  unfold pareto_groups, sort_revenue_desc.
  rewrite (qsum_Permutation _ _
    (fmap_Permutation snd _ _ (merge_sort_Permutation _ _))).
  rewrite <- list_fmap_compose.
  apply (groupby_sum_conserved key Sales.revenue String.le df).
Qed.

Lemma qsum_nonneg (xs : list Qc) :
  Forall (λ x, 0 ≤ x)%Qc xs → (0 ≤ qsum xs)%Qc.
Proof.
  induction 1 as [|x xs Hx _ IH]; [done |].
  rewrite qsum_cons. by apply Qcplus_nonneg_nonneg.
Qed.

Lemma pareto_groups_nonneg (key : Sales.row → string) (df : list Sales.row) :
  Forall (λ r, 0 ≤ Sales.revenue r)%Qc df →
  Forall (λ g, 0 ≤ g.2)%Qc (pareto_groups key df).
Proof.
  intros Hdf. unfold pareto_groups, sort_revenue_desc.
  rewrite merge_sort_Permutation. apply Forall_fmap, Forall_forall.
  intros [k rows] Hg. cbn.
  unfold groupby in Hg. apply list_elem_of_fmap in Hg as (k' & [= -> ->] & _).
  apply qsum_nonneg. rewrite Forall_fmap. apply Forall_forall.
  intros r [_ Hr]%list_elem_of_filter. by eapply Forall_forall in Hdf.
Qed.

Lemma qsum_div (t : Qc) (xs : list Qc) :
  qsum ((λ x, x / t)%Qc <$> xs) = (qsum xs / t)%Qc.
Proof.
  induction xs as [|x xs IH]; [cbn; unfold Qcdiv; ring |].
  rewrite !fmap_cons, !qsum_cons, IH. unfold Qcdiv. ring.
Qed.

(** The [cumulative_share] column of the result is the running sum of the
    shares. *)
Lemma pareto_by_cumulative_share (key : Sales.row → string)
    (df : list Sales.row) (threshold : num) :
  Pareto.cumulative_share <$> pareto_by key df threshold =
  cumsum ((λ g : string * Qc,
             xdiv (Fin g.2) (Fin (qsum (snd <$> pareto_groups key df))))
          <$> pareto_groups key df).
Proof.
  unfold pareto_by. cbn zeta.
  generalize (qsum (snd <$> pareto_groups key df)). intros t.
  unfold cumsum. generalize (Fin 0%Qc).
  induction (pareto_groups key df) as [|g gs IH]; intros acc; [done |].
  cbn [fmap list_fmap cumsum_from].
  destruct (is_nan (xdiv (Fin g.2) (Fin t))); cbn; f_equal; apply IH.
Qed.

(** C4 (amended): for the grouping [pareto_products] or
    [pareto_categories] returns on a dataset whose total revenue is not
    zero, the last row's [cumulative_share] is 1; and when moreover no
    line item has a negative revenue, [cumulative_share] never decreases
    from one row to the next. *)
Theorem pareto_cumulative_share
    (pareto : list Sales.row → num → list Pareto.row)
    (df : list Sales.row) (threshold : num) :
  pareto = pareto_products ∨ pareto = pareto_categories →
  qsum (Sales.revenue <$> df) ≠ 0%Qc →
  (∃ r, last (pareto df threshold) = Some r ∧
        Pareto.cumulative_share r = Fin 1%Qc) ∧
  (Forall (λ r, 0 ≤ Sales.revenue r)%Qc df →
   ∀ (i : nat) (a b : Pareto.row),
     pareto df threshold !! i = Some a →
     pareto df threshold !! S i = Some b →
     xleb (Pareto.cumulative_share a) (Pareto.cumulative_share b) = true).
Proof.
  intros Hp Ht.
  assert (∃ key, pareto = pareto_by key) as [key ->].
  { destruct Hp as [->| ->]; eauto. }
  pose proof (pareto_by_cumulative_share key df threshold) as Hcol.
  rewrite pareto_groups_total in Hcol.
  set (t := qsum (Sales.revenue <$> df)) in *.
  assert (Hshares :
    (λ g : string * Qc, xdiv (Fin g.2) (Fin t)) <$> pareto_groups key df =
    Fin <$> ((λ x, x / t)%Qc <$> (snd <$> pareto_groups key df))).
  { rewrite <- !list_fmap_compose. apply list_fmap_ext. intros _ g _. cbn.
    by rewrite decide_False. }
  rewrite Hshares in Hcol. unfold cumsum in Hcol. split.
  - pose proof (f_equal last Hcol) as Hlast.
    rewrite fmap_last, cumsum_from_last, qsum_div, pareto_groups_total in Hlast.
    fold t in Hlast.
    destruct (snd <$> pareto_groups key df) eqn:Egs.
    + exfalso. apply Ht. unfold t. rewrite <- (pareto_groups_total key), Egs.
      done.
    + cbn [fmap list_fmap] in Hlast.
      destruct (last (pareto_by key df threshold)) as [r|]; [|done].
      exists r. split; [done |]. injection Hlast as ->. f_equal. by field.
  - intros Hpos i a b Ha Hb.
    eapply (cumsum_from_mono 0%Qc
              ((λ x, x / t)%Qc <$> (snd <$> pareto_groups key df)) i).
    + rewrite !Forall_fmap.
      eapply Forall_impl; [by apply (pareto_groups_nonneg key) |].
      intros g Hg. cbn.
      assert (Htpos : (0 < t)%Qc).
      { assert (Hge : (0 ≤ t)%Qc).
        { unfold t. apply qsum_nonneg. by rewrite Forall_fmap. }
        destruct (Qcle_lt_or_eq _ _ Hge); [done | congruence]. }
      unfold Qcdiv. apply Qcmult_nonneg_nonneg; [done |].
      by apply Qclt_le_weak, Qcinv_pos.
    + rewrite <- Hcol, list_lookup_fmap, Ha. done.
    + rewrite <- Hcol, list_lookup_fmap, Hb. done.
Qed.

Lemma pareto_cumulative_share_witness :
  let df :=
    [ Sales.Make (Some 1) (Ts.Make 2024 1 5) "pen" "office" "north" 1
        (qz 10) (qz 10);
      Sales.Make (Some 2) (Ts.Make 2024 1 7) "ink" "office" "north" 2
        (qz 30) (qz 60);
      Sales.Make (Some 3) (Ts.Make 2024 2 1) "pen" "office" "south" 3
        (qz 10) (qz 30) ] in
  qsum (Sales.revenue <$> df) ≠ 0%Qc ∧
  Forall (λ r, 0 ≤ Sales.revenue r)%Qc df ∧
  (∃ r, last (pareto_products df (Fin (Q2Qc 0.8))) = Some r ∧
        Pareto.cumulative_share r = Fin 1%Qc) ∧
  (∀ (i : nat) (a b : Pareto.row),
     pareto_products df (Fin (Q2Qc 0.8)) !! i = Some a →
     pareto_products df (Fin (Q2Qc 0.8)) !! S i = Some b →
     xleb (Pareto.cumulative_share a) (Pareto.cumulative_share b) = true).
Proof.
  cbn zeta.
  assert (Ht : qsum (Sales.revenue <$>
    [ Sales.Make (Some 1) (Ts.Make 2024 1 5) "pen" "office" "north" 1
        (qz 10) (qz 10);
      Sales.Make (Some 2) (Ts.Make 2024 1 7) "ink" "office" "north" 2
        (qz 30) (qz 60);
      Sales.Make (Some 3) (Ts.Make 2024 2 1) "pen" "office" "south" 3
        (qz 10) (qz 30) ]) ≠ 0%Qc) by (by intros [=]).
  assert (Hpos : Forall (λ r, 0 ≤ Sales.revenue r)%Qc
    [ Sales.Make (Some 1) (Ts.Make 2024 1 5) "pen" "office" "north" 1
        (qz 10) (qz 10);
      Sales.Make (Some 2) (Ts.Make 2024 1 7) "ink" "office" "north" 2
        (qz 30) (qz 60);
      Sales.Make (Some 3) (Ts.Make 2024 2 1) "pen" "office" "south" 3
        (qz 10) (qz 30) ]) by (repeat constructor; by intros [=]).
  destruct (pareto_cumulative_share pareto_products _ (Fin (Q2Qc 0.8))
              (or_introl eq_refl) Ht) as [Hlast Hmono].
  split; [done |]. split; [done |]. split; [done |]. by apply Hmono.
Defined.

(** C4 as stated fails in two ways.  A dataset whose revenues sum to zero
    has shares [0/0]: the only row's [cumulative_share] is NaN, not 1.  A
    dataset with a negative line item (a refund) has a negative share: the
    cumulative shares are 3/2 and then 1, a decrease. *)
Lemma pareto_cumulative_share_fails :
  (let df :=
     [ Sales.Make (Some 1) (Ts.Make 2024 1 5) "pen" "office" "north" 1
         (qz 0) (qz 0) ] in
   df ≠ [] ∧
   Pareto.cumulative_share <$> pareto_products df (Fin (Q2Qc 0.8)) = [NaN] ∧
   Pareto.cumulative_share <$> pareto_categories df (Fin (Q2Qc 0.8)) = [NaN])
  ∧
  (let df :=
     [ Sales.Make (Some 1) (Ts.Make 2024 1 5) "pen" "office" "north" 3
         (qz 1) (qz 3);
       Sales.Make (Some 2) (Ts.Make 2024 1 7) "ink" "refund" "north" (-1)
         (qz 1) (qz (-1)) ] in
   Pareto.cumulative_share <$> pareto_products df (Fin (Q2Qc 0.8))
     = [Fin (Q2Qc 1.5); Fin 1%Qc] ∧
   Pareto.cumulative_share <$> pareto_categories df (Fin (Q2Qc 0.8))
     = [Fin (Q2Qc 1.5); Fin 1%Qc] ∧
   xleb (Fin (Q2Qc 1.5)) (Fin 1%Qc) = false).
Proof. cbn zeta. repeat split; compute_done. Qed.

(** ** Validator *)

(** C7: [validate_schema] returns the set difference between the eight
    required column names and the dataset's columns, each missing name
    once, in no particular order; on a dataset that lacks only ["revenue"]
    the result is exactly [["revenue"]]. *)
Theorem validate_schema_difference (columns : list string) :
  (∀ c, c ∈ validate_schema columns ↔ c ∈ REQUIRED_COLUMNS ∧ c ∉ columns)
  ∧ NoDup (validate_schema columns)
  ∧ ((∀ c, c ∈ REQUIRED_COLUMNS → c ≠ "revenue" → c ∈ columns) →
     "revenue" ∉ columns →
     validate_schema columns = ["revenue"]).
Proof.
  unfold validate_schema. cbn zeta. split; [|split].
  - intros c. rewrite elem_of_elements, elem_of_difference.
    by rewrite !elem_of_list_to_set.
  - apply NoDup_elements.
  - intros Hall Hrev.
    assert (Hset : (list_to_set REQUIRED_COLUMNS ∖ list_to_set columns
                    : gset string) = {["revenue"]}).
    { apply set_eq. intros c.
      rewrite elem_of_difference, !elem_of_list_to_set, elem_of_singleton.
      split.
      - intros [Hreq Hc]. destruct (decide (c = "revenue")); [done |].
        destruct Hc. by apply Hall.
      - intros ->. split; [|done]. unfold REQUIRED_COLUMNS.
        rewrite !elem_of_cons. tauto. }
    rewrite Hset. apply elements_singleton.
Qed.

Lemma validate_schema_difference_witness :
  validate_schema
    [ "order_id"; "order_date"; "product_name"; "category"; "region";
      "quantity"; "unit_price"; "discount_code" ] = ["revenue"].
Proof.
  apply (validate_schema_difference
    [ "order_id"; "order_date"; "product_name"; "category"; "region";
      "quantity"; "unit_price"; "discount_code" ]).
  - intros c Hc Hne. unfold REQUIRED_COLUMNS in Hc.
    repeat (apply elem_of_cons in Hc as [->|Hc]; [by repeat constructor |]).
    by apply elem_of_nil in Hc.
  - compute_done.
Defined.

(** *** Outlier fence *)

Lemma quantile_fin (xs : list Qc) (q : Qc) :
  xs ≠ [] → ∃ v, quantile xs q = Fin v.
Proof.
  intros Hxs. unfold quantile.
  destruct (merge_sort Qcle xs) as [|y ys] eqn:E; [|eauto].
  destruct Hxs. apply Permutation_nil_r. rewrite <- E.
  by rewrite merge_sort_Permutation.
Qed.

(** The two interpolation indices stay inside the column. *)
Lemma quantile_index_bounds (n : Z) (q : Qc) :
  0 < n → (0 ≤ q)%Qc → (q ≤ 1)%Qc →
  0 ≤ Qfloor (qz (n - 1) * q)%Qc ≤ n - 1.
Proof.
  intros Hn Hq0 Hq1.
  assert (Hn0 : (0 ≤ qz (n - 1))%Qc).
  { unfold qz, Qcle. cbn. rewrite !Qred_correct.
    unfold Qle. cbn. lia. }
  split.
  - change 0 with (Qfloor 0%Qc). apply Qfloor_resp_le.
    by apply Qcmult_nonneg_nonneg.
  - assert (Hle : (qz (n - 1) * q ≤ qz (n - 1))%Qc).
    { rewrite <- (Qcmult_1_r (qz (n - 1))) at 2.
      by apply Qcmult_le_mono_nonneg_l. }
    apply Qfloor_resp_le in Hle. etrans; [apply Hle |].
    unfold qz. cbn. rewrite Qred_correct, Qfloor_Z. done.
Qed.

(** The quantile of a constant column is that constant. *)
Lemma quantile_const (xs : list Qc) (v q : Qc) :
  xs ≠ [] → Forall (λ x, x = v) xs → (0 ≤ q)%Qc → (q ≤ 1)%Qc →
  quantile xs q = Fin v.
Proof.
  intros Hxs Hall Hq0 Hq1. unfold quantile.
  pose proof (merge_sort_Permutation Qcle xs) as Hperm.
  assert (Hsorted : Forall (λ x, x = v) (merge_sort Qcle xs))
    by (by rewrite Hperm).
  assert (Hlen : (0 < length (merge_sort Qcle xs))%nat).
  { rewrite Hperm. destruct xs; [done | cbn; lia]. }
  destruct (merge_sort Qcle xs) as [|y ys] eqn:E; [cbn in Hlen; lia |].
  unfold interpolate.
  destruct (quantile_index_bounds (Z.of_nat (length (y :: ys))) q)
    as [Hlo Hhi]; [lia | done | done |].
  set (lo := Qfloor (qz (Z.of_nat (length (y :: ys)) - 1) * q)%Qc) in *.
  assert (Hnth : ∀ i, 0 ≤ i ≤ Z.of_nat (length (y :: ys)) - 1 →
                      nth (Z.to_nat i) (y :: ys) 0%Qc = v).
  { intros i Hi.
    destruct (nth_lookup_or_length (y :: ys) (Z.to_nat i) 0%Qc) as [Hi'|Hi'];
      [|lia].
    by eapply Forall_lookup_1 in Hsorted. }
  rewrite !Hnth by lia. f_equal. ring.
Qed.

(** *** Quantiles are monotone *)

Lemma qz_add (a b : Z) : qz (a + b) = (qz a + qz b)%Qc.
Proof.
  unfold qz. apply Qc_is_canon. cbn. rewrite !Qred_correct.
  by rewrite inject_Z_plus.
Qed.

Lemma qz_floor_le (h : Qc) : (qz (Qfloor h) ≤ h)%Qc.
Proof. unfold qz, Qcle. cbn. rewrite Qred_correct. apply Qfloor_le. Qed.

Lemma qz_floor_gt (h : Qc) : (h < qz (Qfloor h + 1))%Qc.
Proof. unfold qz, Qclt. cbn. rewrite Qred_correct. apply Qlt_floor. Qed.

Lemma Qcle_sub_nonneg (a b : Qc) : (a ≤ b)%Qc → (0 ≤ b - a)%Qc.
Proof. intros H. by apply Qcle_minus_iff in H. Qed.

(** The interpolation weight lies in [[0, 1]]. *)
Lemma frac_bounds (h : Qc) :
  (0 ≤ h - qz (Qfloor h))%Qc ∧ (h - qz (Qfloor h) ≤ 1)%Qc.
Proof.
  split; [apply Qcle_sub_nonneg, qz_floor_le |].
  apply (Qcplus_le_mono_r _ _ (qz (Qfloor h))).
  replace (h - qz (Qfloor h) + qz (Qfloor h))%Qc with h by ring.
  rewrite Qcplus_comm, <- qz_1, <- qz_add.
  apply Qclt_le_weak, qz_floor_gt.
Qed.

Lemma StronglySorted_nth (v : list Qc) (i j : nat) :
  StronglySorted Qcle v → (i ≤ j)%nat → (j < length v)%nat →
  (nth i v 0 ≤ nth j v 0)%Qc.
Proof.
  intros Hv. revert i j. induction Hv as [|x v _ IH Hx]; intros i j Hij Hj.
  { cbn in Hj. lia. }
  destruct i as [|i], j as [|j]; cbn in *; try lia.
  - apply Qcle_refl.
  - eapply Forall_forall in Hx; [done |].
    apply list_elem_of_In, nth_In. lia.
  - apply IH; lia.
Qed.

Section interpolate.
Context (v : list Qc) (Hv : StronglySorted Qcle v).
Let n := Z.of_nat (length v).
Let lo (h : Qc) : Z := Qfloor h.
Let hi (h : Qc) : Z := Z.min (lo h + 1) (n - 1).
Let at_ (i : Z) : Qc := nth (Z.to_nat i) v 0%Qc.

Lemma at_mono (i j : Z) : 0 ≤ i → i ≤ j → j ≤ n - 1 → (at_ i ≤ at_ j)%Qc.
Proof. intros. apply StronglySorted_nth; [done | lia | lia]. Qed.

(** The interpolated value lies between its two neighbours. *)
Lemma interpolate_between (h : Qc) :
  0 ≤ lo h ≤ n - 1 →
  (at_ (lo h) ≤ interpolate v h)%Qc ∧ (interpolate v h ≤ at_ (hi h))%Qc.
Proof.
  intros Hlo. unfold interpolate. fold n (lo h) (hi h) (at_ (lo h)) (at_ (hi h)).
  assert (Hab : (at_ (lo h) ≤ at_ (hi h))%Qc)
    by (apply at_mono; unfold hi; lia).
  destruct (frac_bounds h) as [Hf0 Hf1]. fold (lo h) in Hf0, Hf1.
  apply Qcle_sub_nonneg in Hab. split.
  - rewrite <- (Qcplus_0_r (at_ (lo h))) at 1.
    apply Qcplus_le_mono_l. by apply Qcmult_nonneg_nonneg.
  - replace (at_ (hi h)) with
      (at_ (lo h) + (at_ (hi h) - at_ (lo h)) * 1)%Qc at 2 by ring.
    apply Qcplus_le_mono_l. by apply Qcmult_le_mono_nonneg_l.
Qed.

Lemma interpolate_mono (h1 h2 : Qc) :
  0 ≤ lo h1 → lo h2 ≤ n - 1 → (h1 ≤ h2)%Qc →
  (interpolate v h1 ≤ interpolate v h2)%Qc.
Proof.
  intros H1 H2 Hle.
  assert (Hlo : lo h1 ≤ lo h2) by (by apply Qfloor_resp_le).
  destruct (decide (lo h1 = lo h2)) as [Heq|Hne].
  - unfold interpolate. fold n (lo h1) (lo h2). rewrite <- Heq.
    fold (hi h1) (at_ (lo h1)) (at_ (hi h1)).
    apply Qcplus_le_mono_l. apply Qcmult_le_mono_nonneg_l.
    + apply Qcle_sub_nonneg, at_mono; unfold hi; lia.
    + by apply Qcplus_le_mono_r.
  - destruct (interpolate_between h1) as [_ Hup]; [lia |].
    destruct (interpolate_between h2) as [Hdown _]; [lia |].
    etrans; [apply Hup |]. etrans; [|apply Hdown].
    apply at_mono; unfold hi; lia.
Qed.
End interpolate.

Lemma quantile_mono (xs : list Qc) (p q a b : Qc) :
  (0 ≤ p)%Qc → (p ≤ q)%Qc → (q ≤ 1)%Qc →
  quantile xs p = Fin a → quantile xs q = Fin b → (a ≤ b)%Qc.
Proof.
  intros Hp Hpq Hq. unfold quantile.
  pose proof (StronglySorted_merge_sort Qcle xs) as Hv.
  destruct (merge_sort Qcle xs) as [|y ys] eqn:E; [done |].
  intros [= <-] [= <-].
  set (n := Z.of_nat (length (y :: ys))).
  assert (Hn : 0 < n) by (unfold n; cbn; lia).
  destruct (quantile_index_bounds n p) as [Hp0 _];
    [done | done | by etrans |].
  destruct (quantile_index_bounds n q) as [_ Hq1];
    [done | by etrans | done |].
  apply interpolate_mono; try done.
  apply Qcmult_le_mono_nonneg_l; [|done].
  unfold qz, Qcle. cbn. rewrite !Qred_correct. unfold Qle. cbn. lia.
Qed.

(** C6: on a non-empty dataset the quartiles are finite and ordered, and
    [detect_revenue_outliers] returns exactly the rows (in order) whose
    revenue lies strictly outside [[Q1 - 1.5 IQR, Q3 + 1.5 IQR]]; a row whose
    revenue is one of the two bounds is never returned; and when all
    revenues are equal the result is empty. *)
Theorem detect_revenue_outliers_fence (df : list Sales.row) :
  df ≠ [] →
  ∃ q1 q3 : Qc,
    quantile (Sales.revenue <$> df) (Q2Qc 0.25) = Fin q1 ∧
    quantile (Sales.revenue <$> df) (Q2Qc 0.75) = Fin q3 ∧
    let iqr := (q3 - q1)%Qc in
    let lower := (q1 - Q2Qc 1.5 * iqr)%Qc in
    let upper := (q3 + Q2Qc 1.5 * iqr)%Qc in
    (lower ≤ upper)%Qc ∧
    detect_revenue_outliers df = filter (outside_fence lower upper) df ∧
    (∀ r, Sales.revenue r = lower ∨ Sales.revenue r = upper →
          r ∉ detect_revenue_outliers df) ∧
    (∀ v, Forall (λ r, Sales.revenue r = v) df →
          detect_revenue_outliers df = []).
Proof.
  intros Hdf.
  assert (Hrev : Sales.revenue <$> df ≠ []) by (by destruct df).
  destruct (quantile_fin _ (Q2Qc 0.25) Hrev) as [q1 Hq1].
  destruct (quantile_fin _ (Q2Qc 0.75) Hrev) as [q3 Hq3].
  exists q1, q3. split; [done |]. split; [done |]. cbn zeta.
  assert (Hq : (q1 ≤ q3)%Qc).
  { by apply (quantile_mono (Sales.revenue <$> df) (Q2Qc 0.25) (Q2Qc 0.75)). }
  assert (Hfence : (q1 - Q2Qc 1.5 * (q3 - q1) ≤ q3 + Q2Qc 1.5 * (q3 - q1))%Qc).
  { apply Qcle_minus_iff.
    replace (q3 + Q2Qc 1.5 * (q3 - q1) + - (q1 - Q2Qc 1.5 * (q3 - q1)))%Qc
      with (Q2Qc 4 * (q3 - q1))%Qc.
    - apply Qcmult_nonneg_nonneg; [done | by apply Qcle_sub_nonneg].
    - assert (H15 : (Q2Qc 1.5 + Q2Qc 1.5 + 1 = Q2Qc 4)%Qc)
        by (by apply Qc_is_canon).
      rewrite <- H15. ring. }
  assert (Hdet : detect_revenue_outliers df =
    filter (outside_fence (q1 - Q2Qc 1.5 * (q3 - q1))
                          (q3 + Q2Qc 1.5 * (q3 - q1))) df).
  { unfold detect_revenue_outliers, fence. rewrite Hq1, Hq3.
    cbn [xsub xadd xneg xmul]. apply list_filter_iff. intros r.
    unfold outside_fence, is_outlier, xgtb, xltb.
    rewrite orb_True, !bool_decide_spec.
    replace (q1 + - (Q2Qc 1.5 * (q3 + - q1)))%Qc
      with (q1 - Q2Qc 1.5 * (q3 - q1))%Qc by ring.
    by replace (q3 + Q2Qc 1.5 * (q3 + - q1))%Qc
      with (q3 + Q2Qc 1.5 * (q3 - q1))%Qc by ring. }
  split; [done |]. split; [done |]. split.
  - intros r Hr. rewrite Hdet. intros [Hout _]%list_elem_of_filter.
    destruct Hr as [Hr|Hr], Hout as [Hout|Hout]; rewrite Hr in Hout.
    + by apply Qclt_not_eq in Hout.
    + by apply Qclt_not_le in Hout.
    + by apply Qclt_not_le in Hout.
    + by apply Qclt_not_eq in Hout.
  - intros v Hv.
    assert (Hc : Forall (λ x, x = v) (Sales.revenue <$> df))
      by (by rewrite Forall_fmap).
    rewrite (quantile_const _ v) in Hq1, Hq3 by done.
    injection Hq1 as <-. injection Hq3 as <-. rewrite Hdet.
    clear -Hv. induction Hv as [|r rows Hr _ IH]; [done |].
    rewrite filter_cons_False; [done |].
    unfold outside_fence. rewrite Hr.
    replace (v - Q2Qc 1.5 * (v - v))%Qc with v by ring.
    replace (v + Q2Qc 1.5 * (v - v))%Qc with v by ring.
      intros [H|H]; by apply Qclt_not_eq in H.
Qed.

Lemma detect_revenue_outliers_fence_witness :
  let df :=
    [ Sales.Make (Some 1) (Ts.Make 2024 1 5) "pen" "office" "north" 1
        (qz 50) (qz 50);
      Sales.Make (Some 2) (Ts.Make 2024 1 7) "ink" "office" "north" 5
        (qz 10) (qz 50);
      Sales.Make (Some 3) (Ts.Make 2024 2 1) "cap" "office" "south" 2
        (qz 25) (qz 50) ] in
  df ≠ [] ∧ Forall (λ r, Sales.revenue r = qz 50) df ∧
  detect_revenue_outliers df = [].
Proof.
  cbn zeta. split; [done |]. split; [by repeat constructor |].
  destruct (detect_revenue_outliers_fence
    [ Sales.Make (Some 1) (Ts.Make 2024 1 5) "pen" "office" "north" 1
        (qz 50) (qz 50);
      Sales.Make (Some 2) (Ts.Make 2024 1 7) "ink" "office" "north" 5
        (qz 10) (qz 50);
      Sales.Make (Some 3) (Ts.Make 2024 2 1) "cap" "office" "south" 2
        (qz 25) (qz 50) ])
    as (q1 & q3 & _ & _ & _ & _ & _ & Hconst); [done |].
  apply (Hconst (qz 50)). by repeat constructor.
Defined.

(** One row far above the rest is the only outlier; the fence of
    [1, 2, 3, 4, 100] is [[-1, 7]]. *)
Example detect_revenue_outliers_example :
  Sales.revenue <$>
    detect_revenue_outliers
      ((λ z, Sales.Make (Some z) (Ts.Make 2024 1 5) "pen" "office" "north" 1
               (qz z) (qz z)) <$> [1; 2; 3; 4; 100])
  = [qz 100]
  ∧ fence (qz <$> [1; 2; 3; 4; 100]) = (nz (-1), nz 7).
Proof. split; compute_done. Qed.

(** ** Forecaster *)

Lemma ts_le_refl (a : Ts.t) : ts_le a a.
Proof. unfold ts_le. lia. Qed.

Lemma ts_le_trans (a b c : Ts.t) : ts_le a b → ts_le b c → ts_le a c.
Proof. unfold ts_le. lia. Qed.

Lemma ts_le_total (a b : Ts.t) : ts_le a b ∨ ts_le b a.
Proof. unfold ts_le. lia. Qed.

Lemma ts_max_spec (ds : list Ts.t) :
  ds ≠ [] →
  ∃ m, ts_max ds = Some m ∧ m ∈ ds ∧ ∀ d, d ∈ ds → ts_le d m.
Proof.
  induction ds as [|d ds IH]; [done |]. intros _.
  destruct ds as [|d' ds].
  { exists d. cbn. split; [done |]. split; [left |].
    intros ? ->%list_elem_of_singleton. apply ts_le_refl. }
  destruct IH as (m & Hm & Hin & Hmax); [done |].
  change (ts_max (d :: d' :: ds)) with
    (match ts_max (d' :: ds) with
     | None => Some d
     | Some m => if decide (ts_le d m) then Some m else Some d
     end).
  rewrite Hm. destruct (decide (ts_le d m)) as [Hle|Hnle].
  - exists m. split; [done |]. split; [by right |].
    intros x [->|Hx]%elem_of_cons; auto.
  - exists d. split; [done |]. split; [left |].
    intros x [->|Hx]%elem_of_cons; [apply ts_le_refl |].
    apply ts_le_trans with m; [auto |].
    by destruct (ts_le_total d m).
Qed.

Lemma z_max_spec (zs : list Z) :
  zs ≠ [] →
  ∃ m, z_max zs = Some m ∧ m ∈ zs ∧ ∀ z, z ∈ zs → z ≤ m.
Proof.
  induction zs as [|z zs IH]; [done |]. intros _.
  destruct zs as [|z' zs].
  { exists z. cbn. split; [done |]. split; [left |].
    intros ? ->%list_elem_of_singleton. lia. }
  destruct IH as (m & Hm & Hin & Hmax); [done |].
  change (z_max (z :: z' :: zs)) with
    (match z_max (z' :: zs) with
     | None => Some z
     | Some m => Some (Z.max z m)
     end).
  rewrite Hm. exists (Z.max z m). split; [done |]. split.
  - destruct (Z.max_spec z m) as [[_ ->]|[_ ->]]; [by right | left].
  - intros x [->|Hx]%elem_of_cons; [lia |]. apply Hmax in Hx. lia.
Qed.

(** Adding one more month is one step of the calendar. *)
Lemma add_months_succ (d : Ts.t) (n : Z) :
  (Ts.year (add_months d (n + 1)), Ts.month (add_months d (n + 1))) =
  next_month (Ts.year (add_months d n), Ts.month (add_months d n)).
Proof.
  unfold add_months, next_month. cbn.
  replace (Ts.month d - 1 + (n + 1)) with (Ts.month d - 1 + n + 1) by lia.
  generalize (Ts.month d - 1 + n). intros t.
  destruct (decide (t `mod` 12 + 1 = 12)) as [H12|H12]; f_equal;
    Z.div_mod_to_equations; lia.
Qed.

Lemma add_months_0 (d : Ts.t) :
  1 ≤ Ts.month d ≤ 12 →
  (Ts.year (add_months d 0), Ts.month (add_months d 0)) =
  (Ts.year d, Ts.month d).
Proof.
  intros Hm. unfold add_months. cbn. f_equal; Z.div_mod_to_equations; lia.
Qed.

Lemma add_months_iter (d : Ts.t) (k : nat) :
  1 ≤ Ts.month d ≤ 12 →
  (Ts.year (add_months d (Z.of_nat k)),
   Ts.month (add_months d (Z.of_nat k))) =
  Nat.iter k next_month (Ts.year d, Ts.month d).
Proof.
  intros Hm. induction k as [|k IH]; [by apply add_months_0 |].
  rewrite Nat2Z.inj_succ, <- Z.add_1_r, add_months_succ, IH. done.
Qed.

Lemma xadd_nz (a b : Z) : xadd (nz a) (nz b) = nz (a + b).
Proof. unfold nz. cbn. by rewrite qz_add. Qed.

(** C5: for a non-empty monthly series (of valid calendar months) and
    [periods >= 1], [forecast_future] returns exactly [periods] rows; row
    [j] (from 0) has trend [max trend + 1 + j], so the trends start one
    above the series' maximum and rise by one per row; its month and year
    are those of the (j+1)-th calendar successor of the last observed
    month, December being followed by January of the next year; and its
    forecast is the model's prediction for these three features. *)
Theorem forecast_future_rows (model : num → num → num → num)
    (series : list Series.row) (periods : Z) :
  series ≠ [] → 1 ≤ periods →
  Forall (λ r, 1 ≤ Ts.month (Series.order_month r) ≤ 12) series →
  ∃ (last : Ts.t) (last_trend : Z) (rows : list Future.row),
    last ∈ Series.order_month <$> series ∧
    (∀ d, d ∈ Series.order_month <$> series → ts_le d last) ∧
    last_trend ∈ Series.trend <$> series ∧
    (∀ t, t ∈ Series.trend <$> series → t ≤ last_trend) ∧
    forecast_future model series periods = Ok rows ∧
    Z.of_nat (length rows) = periods ∧
    ∀ (j : nat) (row : Future.row), rows !! j = Some row →
      Future.trend row = nz (last_trend + 1 + Z.of_nat j) ∧
      (∃ d, Future.order_month row = Some d ∧
            (Ts.year d, Ts.month d) =
              Nat.iter (S j) next_month (Ts.year last, Ts.month last) ∧
            Future.year row = nz (Ts.year d) ∧
            Future.month row = nz (Ts.month d)) ∧
      Future.forecast_revenue row =
        model (Future.month row) (Future.year row) (Future.trend row).
Proof.
  intros Hne Hp Hvalid.
  destruct (ts_max_spec (Series.order_month <$> series))
    as (last & Hlast & Hlast_in & Hlast_max); [by destruct series |].
  destruct (z_max_spec (Series.trend <$> series))
    as (lt & Hlt & Hlt_in & Hlt_max); [by destruct series |].
  assert (Hlast_valid : 1 ≤ Ts.month last ≤ 12).
  { apply list_elem_of_fmap in Hlast_in as (r & -> & Hr).
    by eapply Forall_forall in Hvalid. }
  unfold forecast_future. rewrite Hlast, Hlt. cbn [fmap option_fmap option_map opt_num from_option].
  set (mk := λ i : Z,
    (Some (add_months last i), nz (Ts.month (add_months last i)),
     nz (Ts.year (add_months last i)), xadd (nz lt) (nz i))).
  set (row_of := λ f : option Ts.t * num * num * num,
    let '(future_date, month, year, trend) := f in
    {| Future.order_month := future_date; Future.month := month;
       Future.year := year; Future.trend := trend;
       Future.forecast_revenue := model month year trend |}).
  exists last, lt, (row_of <$> (mk <$> seqZ 1 periods)).
  do 4 (split; [done |]). split; [|split].
  - destruct (seqZ 1 periods) eqn:E; [|done].
    apply (f_equal length) in E. rewrite length_seqZ in E. cbn in E. lia.
  - rewrite !length_fmap, length_seqZ. lia.
  - intros j row Hrow.
    apply list_lookup_fmap_Some in Hrow as (f & -> & Hf).
    apply list_lookup_fmap_Some in Hf as (i & -> & Hi).
    apply lookup_seqZ in Hi as [-> _]. unfold row_of, mk.
    cbn [Future.trend Future.order_month Future.year Future.month
         Future.forecast_revenue].
    split; [|split; [|done]].
    + rewrite xadd_nz. f_equal. lia.
    + eexists. split; [done |]. split; [|done].
      replace (1 + Z.of_nat j) with (Z.of_nat (S j)) by lia.
      by apply add_months_iter.
Qed.

Lemma forecast_future_rows_witness :
  let series :=
    [ Series.Make (Ts.Make 2024 11 1) (qz 900) 11 2024 0;
      Series.Make (Ts.Make 2024 12 1) (qz 950) 12 2024 1 ] in
  series ≠ [] ∧ 1 ≤ 6 ∧
  ∃ rows, forecast_future (λ _ _ _, nz 0) series 6 = Ok rows ∧
          Z.of_nat (length rows) = 6.
Proof.
  cbn zeta. split; [done |]. split; [done |].
  destruct (forecast_future_rows (λ _ _ _, nz 0)
    [ Series.Make (Ts.Make 2024 11 1) (qz 900) 11 2024 0;
      Series.Make (Ts.Make 2024 12 1) (qz 950) 12 2024 1 ] 6)
    as (last & lt & rows & _ & _ & _ & _ & Hrows & Hlen & _).
  - done.
  - done.
  - repeat constructor; cbn; done.
  - exists rows. by split.
Defined.

(** The specification's example: a series whose last month is December
    2024 is continued by January to June 2025, with trends 2 to 7 after a
    maximum trend of 1. *)
Example forecast_future_december :
  fmap (M := list)
    (λ r, (Future.order_month r, Future.month r, Future.year r,
           Future.trend r))
  <$> forecast_future (λ _ _ _, nz 0)
        [ Series.Make (Ts.Make 2024 11 1) (qz 900) 11 2024 0;
          Series.Make (Ts.Make 2024 12 1) (qz 950) 12 2024 1 ] 6
  = Ok [ (Some (Ts.Make 2025 1 1), nz 1, nz 2025, nz 2);
         (Some (Ts.Make 2025 2 1), nz 2, nz 2025, nz 3);
         (Some (Ts.Make 2025 3 1), nz 3, nz 2025, nz 4);
         (Some (Ts.Make 2025 4 1), nz 4, nz 2025, nz 5);
         (Some (Ts.Make 2025 5 1), nz 5, nz 2025, nz 6);
         (Some (Ts.Make 2025 6 1), nz 6, nz 2025, nz 7) ].
Proof. compute_done. Qed.

(** With [periods = 0] no row is built and selecting the feature columns
    of the empty frame fails. *)
Example forecast_future_no_period :
  forecast_future (λ _ _ _, nz 0)
    [ Series.Make (Ts.Make 2024 12 1) (qz 950) 12 2024 0 ] 0
  = Raise (KeyError "month").
Proof. done. Qed.

(** ** No operation writes to its input *)

Section keeps.
Context (σ0 : store).

Lemma keeps_ret {A} (a : A) (Q : A → Prop) : Q a → keeps σ0 (mret a) Q.
Proof. intros Ha σ Hσ. split; [exact Hσ |]. by intros ? [= <-]. Qed.

Lemma keeps_lift {A} (r : result A) : keeps σ0 (lift r) (λ _, True).
Proof. intros σ Hσ. split; [exact Hσ | done]. Qed.

Lemma keeps_bind {A B} (m : op A) (k : A → op B)
    (Q : A → Prop) (Q' : B → Prop) :
  keeps σ0 m Q → (∀ a, Q a → keeps σ0 (k a) Q') → keeps σ0 (m ≫= k) Q'.
Proof.
  intros Hm Hk σ Hσ. destruct (Hm σ Hσ) as [Hpre HQ].
  unfold mbind, op_bind. destruct (m σ) as [[a|e] σ']; [|done].
  apply Hk; [by apply HQ | done].
Qed.

Lemma keeps_weaken {A} (m : op A) (Q Q' : A → Prop) :
  keeps σ0 m Q → (∀ a, Q a → Q' a) → keeps σ0 m Q'.
Proof. intros Hm HQ σ Hσ. destruct (Hm σ Hσ). naive_solver. Qed.

(** A new object leaves the old ones alone, and its reference is fresh. *)
Lemma keeps_new_frame (f : Frame.t) :
  keeps σ0 (new_frame f) (fresh_for σ0).
Proof.
  intros σ Hσ. unfold new_frame. cbn. split.
  - by apply prefix_app_r.
  - intros r [= <-]. unfold fresh_for. by apply prefix_length.
Qed.

Lemma keeps_read (r : ref) : keeps σ0 (read r) (λ _, True).
Proof.
  intros σ Hσ. unfold read. case_match; (split; [exact Hσ | done]).
Qed.

(** Writing to a fresh object leaves the old ones alone. *)
Lemma keeps_write (r : ref) (f : Frame.t) :
  fresh_for σ0 r → keeps σ0 (write r f) (λ _, True).
Proof.
  intros Hr σ [k ->]. unfold write.
  case_match; (split; [|done]); [|by apply prefix_app_r].
  change (σ0 `prefix_of` <[r:=f]> (σ0 ++ k)).
  rewrite insert_app_r_alt by done. by apply prefix_app_r.
Qed.

Lemma keeps_copy (r : ref) : keeps σ0 (copy r) (fresh_for σ0).
Proof.
  eapply keeps_bind; [apply keeps_read |]. intros f _.
  apply keeps_new_frame.
Qed.

Lemma keeps_setitem (r : ref) (name : string) (col : list cell) :
  fresh_for σ0 r → keeps σ0 (setitem r name col) (λ _, True).
Proof.
  intros Hr. eapply keeps_bind; [apply keeps_read |]. intros f _.
  by apply keeps_write.
Qed.
End keeps.

(** One step of a sequence: the first operation by one of the rules above,
    then the rest with what is known of its result. *)
Ltac keeps_step :=
  lazymatch goal with
  | |- keeps _ (mret _) _ => apply keeps_ret; try done
  | |- keeps _ (new_frame _) _ => apply keeps_new_frame
  | |- keeps _ (copy _) _ => apply keeps_copy
  | |- keeps _ (let '(_, _) := ?p in _) _ => destruct p
  | |- keeps _ (_ ≫= _) _ =>
      eapply keeps_bind;
      [ first [ apply keeps_copy | apply keeps_new_frame | apply keeps_read
              | apply keeps_lift | by apply keeps_setitem ]
      | intros ? ? ]
  end.

Lemma keeps_monthly_kpis_op (σ0 : store) (df : ref) :
  keeps σ0 (monthly_kpis_op df) (fresh_for σ0).
Proof. unfold monthly_kpis_op. repeat keeps_step. Qed.

Lemma keeps_revenue_decomposition_op (σ0 : store) (df : ref) :
  keeps σ0 (revenue_decomposition_op df) (fresh_for σ0).
Proof. unfold revenue_decomposition_op. repeat keeps_step. Qed.

Lemma keeps_prepare_monthly_series_op (σ0 : store) (df : ref) :
  keeps σ0 (prepare_monthly_series_op df) (fresh_for σ0).
Proof. unfold prepare_monthly_series_op. repeat keeps_step. Qed.

Lemma keeps_pareto_by_op (σ0 : store) (name : string)
    (key : Sales.row → string) (df : ref) (threshold : num) :
  keeps σ0 (pareto_by_op name key df threshold) (fresh_for σ0).
Proof. unfold pareto_by_op. repeat keeps_step. Qed.

Lemma keeps_validate_schema_op (σ0 : store) (df : ref) :
  keeps σ0 (validate_schema_op df) (λ _, True).
Proof. unfold validate_schema_op. repeat keeps_step. Qed.

Lemma keeps_validate_business_rules_op (σ0 : store) (df : ref) :
  keeps σ0 (validate_business_rules_op df) (λ _, True).
Proof. unfold validate_business_rules_op. repeat keeps_step. Qed.

Lemma keeps_detect_revenue_outliers_op (σ0 : store) (df : ref) :
  keeps σ0 (detect_revenue_outliers_op df) (fresh_for σ0).
Proof. unfold detect_revenue_outliers_op. repeat keeps_step. Qed.

Lemma keeps_run_full_validation_op (σ0 : store) (df : ref) :
  keeps σ0 (run_full_validation_op df) (λ _, True).
Proof.
  unfold run_full_validation_op.
  eapply keeps_bind; [apply keeps_validate_schema_op |]. intros ? _.
  eapply keeps_bind; [apply keeps_validate_business_rules_op |]. intros ? _.
  eapply keeps_bind; [apply keeps_detect_revenue_outliers_op |]. intros ? _.
  by apply keeps_ret.
Qed.

Lemma keeps_baseline_metrics_op (σ0 : store) (df : ref) :
  keeps σ0 (baseline_metrics_op df) (λ _, True).
Proof. unfold baseline_metrics_op. repeat keeps_step. Qed.

(** What [keeps] gives for the caller's store itself. *)
Lemma keeps_lookup {A} (σ : store) (m : op A) (Q : A → Prop)
    (r : ref) (f : Frame.t) :
  keeps σ m Q → σ !! r = Some f → (m σ).2 !! r = Some f.
Proof.
  intros Hm Hr. destruct (Hm σ) as [[k ->] _]; [done |].
  by apply lookup_app_l_Some.
Qed.

(** C9: none of the operations changes the frame it is given.  Whatever the
    store, a reference [df] to a frame [f] still refers to [f] after
    [monthly_kpis], [revenue_decomposition], [prepare_monthly_series], the
    two Pareto functions, the four validation functions or
    [baseline_metrics] has run on it, whether the run returned or raised:
    same columns, same rows. *)
Theorem core_operations_keep_input (σ : store) (df : ref) (f : Frame.t)
    (threshold : num) :
  σ !! df = Some f →
  Forall (λ run : store → store, run σ !! df = Some f)
    (core_operations df threshold).
Proof.
  intros Hdf. unfold core_operations.
  repeat match goal with
         | |- Forall _ (_ :: _) => apply List.Forall_cons
         | |- Forall _ [] => apply List.Forall_nil
         end;
    (eapply keeps_lookup; [|done]).
  - apply keeps_monthly_kpis_op.
  - apply keeps_revenue_decomposition_op.
  - apply keeps_prepare_monthly_series_op.
  - apply keeps_pareto_by_op.
  - apply keeps_pareto_by_op.
  - apply keeps_validate_schema_op.
  - apply keeps_validate_business_rules_op.
  - apply keeps_detect_revenue_outliers_op.
  - apply keeps_run_full_validation_op.
  - apply keeps_baseline_metrics_op.
Qed.

Lemma core_operations_keep_input_witness :
  let f :=
    frame_of_sales
      [ Sales.Make (Some 1) (Ts.Make 2024 1 5) "pen" "office" "north" 1
          (qz 100) (qz 100);
        Sales.Make (Some 2) (Ts.Make 2024 2 3) "ink" "office" "south" 2
          (qz 60) (qz 120) ] in
  [f] !! 0%nat = Some f ∧
  Forall (λ run : store → store, run [f] !! 0%nat = Some f)
    (core_operations 0%nat (Fin (Q2Qc 0.8))).
Proof.
  cbn zeta. split; [done |].
  by apply core_operations_keep_input.
Defined.

(** The store does record a column assignment: assigning to the caller's
    frame itself, which is what [monthly_kpis] would do without its
    [df.copy()], changes that frame. *)
Example setitem_changes_its_target :
  let f := frame_of ["revenue"] [[CNum (nz 100)]] in
  (setitem 0%nat "order_month" [CStr "2024-01"] [f]).2 !! 0%nat
  = Some (frame_of ["revenue"; "order_month"]
            [[CNum (nz 100); CStr "2024-01"]])
  ∧ (setitem 0%nat "order_month" [CStr "2024-01"] [f]).2 !! 0%nat ≠ Some f.
Proof. split; compute_done. Qed.

(** *** The operations compute what the functions on values compute *)

Lemma sales_of_cells_encode (r : Sales.row) (extra : list (string * cell)) :
  Forall (λ kv, kv.1 ∉ REQUIRED_COLUMNS) extra →
  sales_of_cells
    (foldr (λ kv m, <[kv.1 := kv.2]> m)
       (row_of REQUIRED_COLUMNS (cells_of_sales r)) extra) = r.
Proof.
  intros Hextra.
  assert (Hlook : ∀ name, name ∈ REQUIRED_COLUMNS →
    foldr (λ kv m, <[kv.1 := kv.2]> m)
      (row_of REQUIRED_COLUMNS (cells_of_sales r)) extra !! name =
    row_of REQUIRED_COLUMNS (cells_of_sales r) !! name).
  { intros name Hname. induction Hextra as [|[k c] extra Hk _ IH]; [done |].
    cbn. rewrite lookup_insert_ne; [done |]. cbn in Hk. by intros ->. }
  unfold sales_of_cells.
  rewrite !Hlook by (unfold REQUIRED_COLUMNS; repeat constructor).
  destruct r as [[id|] d p c rg q u rev]; by cbn.
Qed.

Lemma zip_with_fmap_diag {A B C D} (h : B → C → D) (f : A → B) (g : A → C)
    (l : list A) :
  zip_with h (f <$> l) (g <$> l) = (λ x, h (f x) (g x)) <$> l.
Proof. induction l as [|x l IH]; [done |]. cbn. by rewrite IH. Qed.

Section run.
Context (σ : store).

Lemma bind_run {A B} (m : op A) (k : A → op B) (a : A) (σ1 σ2 : store) :
  m σ1 = (Ok a, σ2) → (m ≫= k) σ1 = k a σ2.
Proof. intros Hm. unfold mbind, op_bind. by rewrite Hm. Qed.

Lemma read_run (r : ref) (f : Frame.t) (σ1 : store) :
  σ1 !! r = Some f → read r σ1 = (Ok f, σ1).
Proof. intros Hr. unfold read. by rewrite Hr. Qed.

Lemma copy_run (r : ref) (f : Frame.t) :
  σ !! r = Some f → copy r σ = (Ok (length σ), σ ++ [f]).
Proof. intros Hr. unfold copy. by rewrite (bind_run _ _ f σ σ (read_run _ _ _ Hr)). Qed.

(** Assigning a column of the object allocated at position [length σ]. *)
Lemma setitem_run (f : Frame.t) (k : store) (name : string)
    (col : list cell) :
  setitem (length σ) name col (σ ++ f :: k) =
  (Ok (), σ ++ set_column name col f :: k).
Proof.
  unfold setitem.
  rewrite (bind_run _ _ f _ _ (read_run _ _ _ (list_lookup_middle _ _ _ _ eq_refl))).
  cbn beta. unfold write. rewrite list_lookup_middle by done.
  rewrite <- (Nat.add_0_r (length σ)) at 1. by rewrite insert_app_r.
Qed.
End run.

(** Reading back the frame of a dataset gives the dataset, also after a
    column outside the schema has been assigned. *)
Lemma sales_rows_set_column (rows : list Sales.row) (name : string)
    (c : Sales.row → cell) :
  name ∉ REQUIRED_COLUMNS →
  sales_rows (set_column name (c <$> rows) (frame_of_sales rows)) = rows.
Proof.
  intros Hname. unfold sales_rows, set_column, frame_of_sales, frame_of.
  cbn [Frame.rows Frame.columns].
  rewrite <- !list_fmap_compose, zip_with_fmap_diag, <- list_fmap_compose.
  rewrite <- (list_fmap_id rows) at 2. apply list_fmap_ext. intros _ r _.
  apply (sales_of_cells_encode r [(name, c r)]). by repeat constructor.
Qed.

Lemma sales_rows_frame_of_sales (rows : list Sales.row) :
  sales_rows (frame_of_sales rows) = rows.
Proof.
  unfold sales_rows, frame_of_sales, frame_of. cbn [Frame.rows].
  rewrite <- !list_fmap_compose.
  rewrite <- (list_fmap_id rows) at 2. apply list_fmap_ext. intros _ r _.
  apply (sales_of_cells_encode r []). constructor.
Qed.

(** [monthly_kpis_op], run on a reference to the frame of a dataset,
    returns a reference to a new frame with the four monthly columns, whose
    rows are those of [monthly_kpis]. *)
Lemma monthly_kpis_op_refines (σ : store) (df : ref) (rows : list Sales.row) :
  σ !! df = Some (frame_of_sales rows) →
  ∃ (r : ref) (f : Frame.t),
    (monthly_kpis_op df σ).1 = Ok r ∧
    (monthly_kpis_op df σ).2 !! r = Some f ∧
    Frame.columns f = ["order_month"; "revenue"; "orders"; "aov"] ∧
    monthly_rows f = monthly_kpis rows.
Proof.
  intros Hdf. unfold monthly_kpis_op.
  rewrite (bind_run _ _ _ _ _ (copy_run σ df _ Hdf)).
  rewrite (bind_run _ _ _ _ _
             (read_run _ _ _ (list_lookup_middle σ [] _ _ eq_refl))).
  rewrite (bind_run (lift _) _ () _ _ eq_refl).
  rewrite (bind_run _ _ _ _ _ (setitem_run σ _ [] _ _)).
  rewrite (bind_run _ _ _ _ _
             (read_run _ _ _ (list_lookup_middle σ [] _ _ eq_refl))).
  rewrite (bind_run (lift _) _ () _ _ eq_refl).
  rewrite (bind_run (lift _) _ () _ _ eq_refl).
  rewrite sales_rows_frame_of_sales.
  rewrite sales_rows_set_column by compute_done.
  set (σ1 := σ ++ [set_column "order_month" _ (frame_of_sales rows)]).
  rewrite (bind_run (new_frame _) _ (length σ1) σ1 _ eq_refl).
  rewrite (bind_run _ _ _ _ _ (setitem_run σ1 _ [] _ _)).
  eexists _, _. split; [done |]. split.
  { cbn [snd mret op_ret]. by apply list_lookup_middle. }
  split; [done |].
  unfold monthly_rows, set_column, frame_of. cbn [Frame.rows].
  rewrite <- !list_fmap_compose, zip_with_fmap_diag, <- list_fmap_compose.
  rewrite <- (list_fmap_id (monthly_kpis rows)) at 2.
  apply list_fmap_ext. by intros _ [om rev orders aov] _.
Qed.

(** * Further properties of the code *)

(** ** Scenario simulator: errors, closed form, symmetry, sign *)




(** Linear goals over [Qc], as goals over [Q] for [lra]. *)
Ltac qc_to_q :=
  unfold Qclt, Qcle, Qcminus, Qcdiv, Qcplus, Qcopp, Qcmult, Qcinv, qz,
    Q2Qc in *;
  cbn [this] in *; rewrite ?Qred_correct in *;
  unfold inject_Z in *;
  repeat match goal with
  | |- context [Qinv (?n # ?d)] =>
      let q := eval cbv in (Qinv (n # d)) in
      change (Qinv (n # d)) with q
  | H : context [Qinv (?n # ?d)] |- _ =>
      let q := eval cbv in (Qinv (n # d)) in
      change (Qinv (n # d)) with q in H
  end.


(** X4: nothing clamps the result.  For a positive baseline and price and
    volume changes above -100%, the simulated revenue is negative exactly
    when the discount exceeds 100%, and zero exactly at 100%. *)
Theorem simulate_scenario_no_clamping (k : scalar_kind) (r p v d : Qc) :
  (0 < r)%Qc → (qz (-100) < p)%Qc → (qz (-100) < v)%Qc →
  ∃ (sim : Qc) (delta pct : num),
    simulate_scenario k (Fin r) (Fin p) (Fin v) (Fin d) =
      Ok (scenario_dict (Fin sim) delta pct) ∧
    ((sim < 0)%Qc ↔ (qz 100 < d)%Qc) ∧
    (sim = 0%Qc ↔ d = qz 100).
Proof.
  intros Hr Hp Hv.
  rewrite simulate_scenario_fin by (by apply Qclt_not_eq in Hr). cbn zeta.
  eexists _, _, _. split; [done |].
  assert (Ha : (0 < 1 + p / qz 100)%Qc) by (clear -Hp; qc_to_q; lra).
  assert (Hb : (0 < 1 + v / qz 100)%Qc) by (clear -Hv; qc_to_q; lra).
  assert (Hpos : (0 < r * (1 + p / qz 100) * (1 + v / qz 100))%Qc)
    by (by repeat apply Qcmult_pos_pos).
  set (P := (r * (1 + p / qz 100) * (1 + v / qz 100))%Qc) in *.
  split.
  - rewrite <- (Qcmult_0_r P), <- Qcmult_lt_mono_pos_l by done.
    clear. qc_to_q. split; intros H; lra.
  - split.
    + intros H0. apply Qcmult_integral in H0 as [H0|H0].
      { by apply Qclt_not_eq in Hpos. }
      replace d with ((1 - (1 - d / qz 100)) * qz 100)%Qc
        by (field; apply qz_100_ne_0).
      rewrite H0. by apply Qc_is_canon.
    + intros ->. replace (1 - qz 100 / qz 100)%Qc with 0%Qc; [ring |].
      by apply Qc_is_canon.
Qed.

Lemma simulate_scenario_no_clamping_witness :
  (0 < qz 1000)%Qc ∧ (qz (-100) < qz 10)%Qc ∧ (qz (-100) < qz 0)%Qc ∧
  ∃ (sim : Qc) (delta pct : num),
    simulate_scenario PyFloat (nz 1000) (nz 10) (nz 0) (nz 150) =
      Ok (scenario_dict (Fin sim) delta pct) ∧
    (sim < 0)%Qc.
Proof.
  split; [done |]. split; [done |]. split; [done |].
  destruct (simulate_scenario_no_clamping PyFloat (qz 1000) (qz 10) (qz 0)
              (qz 150)) as (sim & delta & pct & Hsim & Hneg & _);
    [done | done | done |].
  exists sim, delta, pct. split; [done |]. by apply Hneg.
Defined.

(** *** Batch simulation: outcomes and columns *)

Lemma get_pct_cases (s : gmap string pyval) (key : string) :
  (get_pct s key = Raise TypeError ∧ ∃ t, s !! key = Some (VStr t)) ∨
  (get_pct s key = Ok (pct_of s key) ∧ ∀ t, s !! key ≠ Some (VStr t)).
Proof.
  unfold get_pct, pct_of. destruct (s !! key) as [[x|t]|]; eauto.
Qed.

Lemma scenario_dict_dom (sim delta pct : num) :
  dom (scenario_dict sim delta pct) = list_to_set result_keys.
Proof. unfold scenario_dict, result_keys. rewrite !dom_insert_L. set_solver. Qed.

(** What one turn of the loop does: it fails with [TypeError] on a
    non-numeric percentage, with [ZeroDivisionError] on a Python zero
    baseline, and otherwise yields the scenario's keys and the result keys. *)
Lemma batch_step_outcome (k : scalar_kind) (R : num) (s : gmap string pyval) :
  match batch_step k R s with
  | Ok o =>
      numeric_params s ∧ (k = PyFloat → R ≠ Fin 0%Qc) ∧
      dom o = dom s ∪ list_to_set result_keys
  | Raise e =>
      (e = TypeError ∧ ¬ numeric_params s) ∨
      (e = ZeroDivisionError ∧ k = PyFloat ∧ R = Fin 0%Qc)
  end.
Proof.
  unfold batch_step.
  destruct (get_pct_cases s "price_change") as [[-> [t Ht]]|[-> Hp]].
  { cbn. left. split; [done |]. intros Hs. apply (Hs "price_change" t); [|done].
    set_solver. }
  destruct (get_pct_cases s "volume_change") as [[-> [t Ht]]|[-> Hv]].
  { cbn. left. split; [done |]. intros Hs. apply (Hs "volume_change" t); [|done].
    set_solver. }
  destruct (get_pct_cases s "discount") as [[-> [t Ht]]|[-> Hd]].
  { cbn. left. split; [done |]. intros Hs. apply (Hs "discount" t); [|done].
    set_solver. }
  cbn. unfold simulate_scenario, truediv.
  assert (Hnum : numeric_params s).
  { intros key t Hkey. repeat (apply elem_of_cons in Hkey as [->|Hkey]); auto.
    by apply elem_of_nil in Hkey. }
  destruct k; [destruct (decide (R = Fin 0%Qc)) as [->|HR] |]; cbn.
  - by right.
  - split; [done |]. split; [done |].
    by rewrite dom_union_L, scenario_dict_dom.
  - split; [done |]. split; [done |].
    by rewrite dom_union_L, scenario_dict_dom.
Qed.

Lemma batch_loop_outcome (k : scalar_kind) (R : num)
    (scenarios results : list (gmap string pyval)) :
  match batch_loop k R scenarios results with
  | Ok res =>
      ∃ outs, res = results ++ outs ∧
        Forall2 (λ s o, batch_step k R s = Ok o) scenarios outs
  | Raise e =>
      ∃ s, s ∈ scenarios ∧ batch_step k R s = Raise e
  end.
Proof.
  revert results. induction scenarios as [|s rest IH]; intros results.
  { cbn. exists []. by rewrite app_nil_r. }
  cbn. destruct (batch_step k R s) as [o|e] eqn:Hs; cbn.
  - specialize (IH (results ++ [o])).
    destruct (batch_loop k R rest (results ++ [o])) as [res|e].
    + destruct IH as (outs & -> & Hall). exists (o :: outs).
      split; [by rewrite <- app_assoc |]. by constructor.
    + destruct IH as (s' & Hin & Hs'). exists s'. split; [by right | done].
  - exists s. split; [left | done].
Qed.


(** X6: the frame [batch_simulation] returns has the same columns in every
    row: the three result keys together with the keys of all the
    scenarios; a scenario that lacks a key another one has gets a NaN
    cell there. *)
Theorem batch_simulation_columns (k : scalar_kind) (R : num)
    (scenarios rows : list (gmap string pyval)) (row : gmap string pyval) :
  batch_simulation k R scenarios = Ok rows → row ∈ rows →
  dom row = list_to_set result_keys ∪ ⋃ (dom <$> scenarios).
Proof.
  unfold batch_simulation.
  pose proof (batch_loop_outcome k R scenarios []) as Hloop.
  destruct (batch_loop k R scenarios []) as [res|e]; [|done].
  cbn -[DataFrame_of_records]. destruct Hloop as (outs & -> & Hall).
  rewrite app_nil_l. intros [= <-] Hrow.
  unfold DataFrame_of_records in Hrow.
  apply list_elem_of_fmap in Hrow as (o & -> & Ho).
  rewrite dom_union_L, dom_gset_to_gmap.
  assert (Hdom : ⋃ (dom <$> outs) =
                 list_to_set result_keys ∪ ⋃ (dom <$> scenarios)).
  { destruct Hall as [|s1 o1 ss os H1 Hall]; [by apply elem_of_nil in Ho |].
    clear Ho. revert s1 o1 H1.
    induction Hall as [|s2 o2 ss os H2 _ IH]; intros s1 o1 H1.
    - pose proof (batch_step_outcome k R s1) as Hs. rewrite H1 in Hs.
      destruct Hs as (_ & _ & Hd).
      change (⋃ (dom <$> [o1])) with (dom o1 ∪ (∅ : gset string)).
      change (⋃ (dom <$> [s1])) with (dom s1 ∪ (∅ : gset string)).
      rewrite Hd.
      apply set_eq. intros x. rewrite !elem_of_union, elem_of_empty. tauto.
    - specialize (IH s2 o2 H2).
      pose proof (batch_step_outcome k R s1) as Hs. rewrite H1 in Hs.
      destruct Hs as (_ & _ & Hd).
      change (⋃ (dom <$> o1 :: o2 :: os)) with (dom o1 ∪ ⋃ (dom <$> o2 :: os)).
      change (⋃ (dom <$> s1 :: s2 :: ss)) with (dom s1 ∪ ⋃ (dom <$> s2 :: ss)).
      rewrite IH, Hd.
      apply set_eq. intros x. rewrite !elem_of_union. tauto. }
  transitivity (⋃ (dom <$> outs)); [|exact Hdom].
  apply leibniz_equiv. apply subseteq_union_1.
  intros key Hkey. apply elem_of_union_list. exists (dom o). split; [|done].
  by apply list_elem_of_fmap_2.
Qed.

Lemma batch_simulation_columns_witness :
  ∃ rows row,
    batch_simulation NpFloat64 (nz 1000)
      [ {[ "price_change" := VNum (nz 10) ]};
        {[ "discount" := VNum (nz 5); "name" := VStr "sale" ]} ] = Ok rows ∧
    rows !! 0%nat = Some row ∧
    dom row = list_to_set result_keys ∪ {[ "price_change"; "discount"; "name" ]} ∧
    row !! "name" = Some (VNum NaN).
Proof.
  destruct (batch_simulation NpFloat64 (nz 1000)
      [ {[ "price_change" := VNum (nz 10) ]};
        {[ "discount" := VNum (nz 5); "name" := VStr "sale" ]} ])
    as [rows|e] eqn:Hb; [|by vm_compute in Hb].
  destruct rows as [|row rows]; [by vm_compute in Hb |].
  exists (row :: rows), row. split; [done |]. split; [done |].
  split.
  - rewrite (batch_simulation_columns _ _ _ _ row Hb) by left.
    cbn. rewrite !dom_singleton_L, dom_insert_L, dom_singleton_L. set_solver.
  - vm_compute in Hb. injection Hb as <- _. done.
Defined.

(** ** Validator: clean datasets, row order *)



(** A row can be in more than one subset: the filters are independent. *)
Example validate_business_rules_overlap :
  let r := Sales.Make (Some 1) (Ts.Make 2024 1 5) "pen" "office" "north"
             (-2) (qz 0) (qz 30) in
  validate_business_rules [r] = Issues.Make [r] [r] [r].
Proof. done. Qed.

Lemma quantile_Permutation (xs ys : list Qc) (q : Qc) :
  xs ≡ₚ ys → quantile xs q = quantile ys q.
Proof.
  intros Hperm. unfold quantile.
  assert (Hsort : merge_sort Qcle xs = merge_sort Qcle ys).
  { apply (Sorted_unique Qcle); try apply Sorted_merge_sort; try apply _.
    by rewrite !merge_sort_Permutation. }
  by rewrite Hsort.
Qed.

(** X8: the outliers do not depend on the order of the rows: reordering the
    dataset reorders the result and nothing else (the fence is computed from
    the sorted revenues). *)
Theorem detect_revenue_outliers_row_order (df df' : list Sales.row) :
  df ≡ₚ df' → detect_revenue_outliers df ≡ₚ detect_revenue_outliers df'.
Proof.
  intros Hperm. unfold detect_revenue_outliers, fence.
  rewrite !(quantile_Permutation (Sales.revenue <$> df)
              (Sales.revenue <$> df')) by (by apply fmap_Permutation).
  by rewrite Hperm.
Qed.

Lemma detect_revenue_outliers_row_order_witness :
  let a := Sales.Make (Some 1) (Ts.Make 2024 1 5) "pen" "office" "north" 1
             (qz 10) (qz 10) in
  let b := Sales.Make (Some 2) (Ts.Make 2024 1 6) "ink" "office" "north" 1
             (qz 900) (qz 900) in
  [a; a; a; a; b] ≡ₚ [b; a; a; a; a] ∧
  detect_revenue_outliers [a; a; a; a; b]
    ≡ₚ detect_revenue_outliers [b; a; a; a; a].
Proof.
  cbn zeta.
  assert (Hperm : ∀ a b : Sales.row, [a; a; a; a; b] ≡ₚ [b; a; a; a; a]).
  { intros a b. by rewrite (Permutation_app_comm [a; a; a; a] [b]). }
  split; [apply Hperm |].
  apply detect_revenue_outliers_row_order, Hperm.
Defined.

(** ** KPI engine: the monthly table and the decomposition pipeline *)

Section groupby_keys.
Context {R K : Type} `{EqDecision K}.
Context (le : relation K) `{!∀ x y, Decision (le x y)}.
Context (key : R → K) (rows : list R).


Lemma elem_of_group_keys (k : K) :
  k ∈ group_keys le key rows ↔ ∃ r, r ∈ rows ∧ key r = k.
Proof.
  unfold group_keys.
  rewrite merge_sort_Permutation, elem_of_remove_dups, list_elem_of_fmap.
  split; intros (r & H1 & H2); exists r; by split.
Qed.



(** A group is never empty, and holds exactly the rows of its key. *)
Lemma elem_of_groupby (g : K * list R) :
  g ∈ groupby le key rows →
  g.2 = filter (λ r, key r = g.1) rows ∧ ∃ r, r ∈ g.2.
Proof.
  unfold groupby. intros (k & -> & Hk)%list_elem_of_fmap. cbn.
  split; [done |]. apply elem_of_group_keys in Hk as (r & Hr & <-).
  exists r. by apply list_elem_of_filter.
Qed.
End groupby_keys.


Lemma nunique_pos `{EqDecision A} (xs : list (option A)) (x : A) :
  Some x ∈ xs → 1 ≤ nunique xs.
Proof.
  intros Hx. unfold nunique.
  assert (Hin : x ∈ remove_dups (omap id xs)).
  { rewrite elem_of_remove_dups, list_elem_of_omap. by exists (Some x). }
  destruct (remove_dups (omap id xs)); [by apply elem_of_nil in Hin |].
  cbn. lia.
Qed.

(** With no [order_id] missing, every month counts at least one order. *)
Lemma monthly_kpis_orders_pos (df : list Sales.row) :
  Forall (λ r, is_Some (Sales.order_id r)) df →
  Forall (λ m, 1 ≤ Monthly.orders m) (monthly_kpis df).
Proof.
  intros Hids. unfold monthly_kpis. rewrite Forall_fmap.
  apply Forall_forall. intros g Hg. cbn.
  destruct (elem_of_groupby _ _ _ _ Hg) as [Hrows [r Hr]].
  assert (Hrdf : r ∈ df).
  { rewrite Hrows in Hr. by apply list_elem_of_filter in Hr as [_ ?]. }
  destruct (proj1 (Forall_forall _ _) Hids r Hrdf) as [id Hid].
  apply (nunique_pos _ id). rewrite <- Hid. by apply list_elem_of_fmap_2.
Qed.

(** The working frame is the first month without a predecessor, then
    every month with the one before it. *)
Lemma work_rows_cons (m : Monthly.row) (rest : list Monthly.row) :
  work_rows (m :: rest) =
  work_row None m :: zip_with (λ prev cur, work_row (Some prev) cur)
                       (m :: rest) rest.
Proof.
  unfold work_rows, shift.
  change (take (length (m :: rest)) (None :: (Some <$> m :: rest)))
    with (None :: take (length rest) (Some <$> m :: rest)).
  cbn [zip_with]. f_equal.
  by rewrite zip_with_take_l, zip_with_fmap_l.
Qed.

(** Between two months that both have orders, every cell of the working
    row is finite, and the row is additive. *)
Lemma work_row_finite (prev cur : Monthly.row) :
  kpi_consistent prev → kpi_consistent cur →
  Monthly.orders prev ≠ 0 → Monthly.orders cur ≠ 0 →
  notna (work_row (Some prev) cur) = true ∧
  Work.revenue_change (work_row (Some prev) cur) =
    xadd (Work.orders_effect (work_row (Some prev) cur))
         (Work.aov_effect (work_row (Some prev) cur)).
Proof.
  unfold kpi_consistent. intros Hp Hc Hop Hoc.
  unfold notna, work_row. cbn. rewrite Hp, Hc, !xdiv_fin by done.
  unfold nz. cbn. split; [done |]. f_equal. field.
  split; intros ?; [by apply Hop, qz_eq_0 | by apply Hoc, qz_eq_0].
Qed.

(** X10: the Revenue Drivers pipeline.  On a dataset in which no
    [order_id] is missing, every month of [monthly_kpis] counts at least one
    order, [revenue_decomposition] of that table has one row for every month
    but the first, in the same order, and every one of its rows has
    [revenue_change = orders_effect + aov_effect]. *)
Theorem kpi_pipeline_additive (df : list Sales.row) :
  Forall (λ r, is_Some (Sales.order_id r)) df →
  let monthly := monthly_kpis df in
  let decomp := revenue_decomposition monthly in
  Forall (λ m, 1 ≤ Monthly.orders m) monthly ∧
  Decomp.order_month <$> decomp = tail (Monthly.order_month <$> monthly) ∧
  Forall (λ row, Decomp.revenue_change row =
                 xadd (Decomp.orders_effect row) (Decomp.aov_effect row))
    decomp.
Proof.
  intros Hids. cbn zeta.
  pose proof (monthly_kpis_orders_pos df Hids) as Hpos.
  assert (Hcons : Forall kpi_consistent (monthly_kpis df)).
  { unfold monthly_kpis. rewrite Forall_fmap. by apply Forall_true. }
  split; [done |].
  generalize dependent (monthly_kpis df). intros monthly Hpos Hcons.
  unfold revenue_decomposition. cbn zeta.
  destruct monthly as [|m rest]; [done |].
  rewrite work_rows_cons.
  rewrite filter_cons_False by (rewrite notna_work_row_prev; exact id).
  assert (Hall : Forall (λ w, notna w = true ∧
      Work.revenue_change w = xadd (Work.orders_effect w) (Work.aov_effect w))
    (zip_with (λ prev cur, work_row (Some prev) cur) (m :: rest) rest) ∧
    Work.order_month <$>
      zip_with (λ prev cur, work_row (Some prev) cur) (m :: rest) rest =
    Monthly.order_month <$> rest).
  { clear df Hids. revert m Hpos Hcons.
    induction rest as [|c rest IH]; intros m Hpos Hcons; [done |].
    apply Forall_cons in Hpos as [Hm Hpos].
    apply Forall_cons in Hcons as [Hcm Hcons].
    destruct (IH c Hpos Hcons) as [IH1 IH2].
    pose proof Hpos as Hpos'. apply Forall_cons in Hpos' as [Hc _].
    pose proof Hcons as Hcons'. apply Forall_cons in Hcons' as [Hcc _].
    cbn [zip_with]. split.
    - constructor; [|done]. apply work_row_finite; try done; lia.
    - rewrite !fmap_cons. f_equal. exact IH2. }
  destruct Hall as [Hall Hmonths].
  assert (Hfilter : filter (λ w, notna w)
      (zip_with (λ prev cur, work_row (Some prev) cur) (m :: rest) rest) =
      zip_with (λ prev cur, work_row (Some prev) cur) (m :: rest) rest).
  { clear Hmonths. induction Hall as [|w ws [Hw _] _ IH]; [done |].
    rewrite filter_cons_True by (by rewrite Hw). by rewrite IH. }
  rewrite Hfilter. split.
  - rewrite <- list_fmap_compose. exact Hmonths.
  - rewrite Forall_fmap. eapply Forall_impl; [exact Hall |].
    by intros w [_ Hw].
Qed.

Lemma kpi_pipeline_additive_witness :
  let df :=
    [ Sales.Make (Some 1) (Ts.Make 2024 1 5) "pen" "office" "north" 1
        (qz 100) (qz 100);
      Sales.Make (Some 2) (Ts.Make 2024 2 3) "ink" "office" "south" 2
        (qz 60) (qz 120);
      Sales.Make (Some 3) (Ts.Make 2024 2 9) "pen" "office" "north" 3
        (qz 100) (qz 300);
      Sales.Make (Some 3) (Ts.Make 2024 3 1) "cap" "office" "north" 1
        (qz 50) (qz 50) ] in
  Forall (λ r, is_Some (Sales.order_id r)) df ∧
  Decomp.order_month <$> revenue_decomposition (monthly_kpis df) =
    ["2024-02"; "2024-03"].
Proof.
  cbn zeta.
  assert (Hids : Forall (λ r, is_Some (Sales.order_id r))
    [ Sales.Make (Some 1) (Ts.Make 2024 1 5) "pen" "office" "north" 1
        (qz 100) (qz 100);
      Sales.Make (Some 2) (Ts.Make 2024 2 3) "ink" "office" "south" 2
        (qz 60) (qz 120);
      Sales.Make (Some 3) (Ts.Make 2024 2 9) "pen" "office" "north" 3
        (qz 100) (qz 300);
      Sales.Make (Some 3) (Ts.Make 2024 3 1) "cap" "office" "north" 1
        (qz 50) (qz 50) ]) by (repeat constructor; by eexists).
  split; [done |].
  destruct (kpi_pipeline_additive _ Hids) as (_ & Hmonths & _).
  rewrite Hmonths. by vm_compute.
Defined.
